(** * Gas estimate calculator: app/util/custom-gas.js

    A shallow embedding of the gas-fee conversions, the wait-time
    formatter and the estimate fetcher of [app/util/custom-gas.js],
    together with the part of the JavaScript number semantics
    (IEEE 754 binary64 with round-to-nearest-even, [Number::toString],
    [parseInt], [Math.floor]/[Math.round]/[Math.ceil], [%]) that the
    functions rely on. *)

From stdpp Require Import gmap strings.
From Stdlib Require Import ZArith QArith Qround Qpower Lia Lqa.
From Stdlib Require Import Bool String Ascii List SpecFloat.
Import ListNotations.

Local Open Scope Z_scope.

(** ** JavaScript numbers

    A Number is an IEEE 754 binary64 value.  Finite non-zero values are
    [(-1)^neg * m * 2^e]; operations build them through [round_mag],
    which produces the canonical form ([2^52 <= m < 2^53] with
    [-1074 <= e <= 971], or [m < 2^52] with [e = -1074]). *)

Inductive number : Type :=
| NaN
| Infinity (neg : bool)
| Zero (neg : bool)
| Finite (neg : bool) (m : positive) (e : Z).

Definition number_eqb (x y : number) : bool :=
  match x, y with
  | NaN, NaN => true
  | Infinity s1, Infinity s2 => Bool.eqb s1 s2
  | Zero s1, Zero s2 => Bool.eqb s1 s2
  | Finite s1 m1 e1, Finite s2 m2 e2 =>
      Bool.eqb s1 s2 && Pos.eqb m1 m2 && Z.eqb e1 e2
  | _, _ => false
  end.

(** Magnitude of a finite non-zero Number, as an exact rational. *)
Definition mag (m : positive) (e : Z) : Q := inject_Z (Zpos m) * 2 ^ e.

(** [floor (log2 q)] for a positive rational [q]. *)
Definition ilog2 (q : Q) : Z :=
  if Qle_bool 1 q then Z.log2 (Qfloor q)
  else - Z.log2_up (Qceiling (/ q)).

(** Nearest integer, ties to the even one. *)
Definition round_half_even (r : Q) : Z :=
  let f := Qfloor r in
  match Qcompare (r - inject_Z f) (1 # 2) with
  | Lt => f
  | Gt => f + 1
  | Eq => if Z.even f then f else f + 1
  end.

(** The Number with sign [neg] whose magnitude is the binary64 value
    nearest to the positive rational [q] (ties to even): gradual
    underflow below [2^-1022], overflow to infinity from [2^1024]. *)
Definition round_mag (neg : bool) (q : Q) : number :=
  let e := Z.max (ilog2 q - 52) (-1074) in
  let t := round_half_even (q * 2 ^ (- e)) in
  let e' := if t =? 2 ^ 53 then e + 1 else e in
  let t' := if t =? 2 ^ 53 then 2 ^ 52 else t in
  match t' with
  | Zpos m => if e' >? 971 then Infinity neg else Finite neg m e'
  | _ => Zero neg
  end.

(** The Number value of a rational (the "𝔽" of the language
    specification). *)
Definition of_Q (q : Q) : number :=
  match Qcompare q 0 with
  | Eq => Zero false
  | Gt => round_mag false q
  | Lt => round_mag true (- q)
  end.

Definition of_Z (n : Z) : number := of_Q (inject_Z n).

(** The exact value of a finite Number. *)
Definition to_Q (x : number) : Q :=
  match x with
  | Finite false m e => mag m e
  | Finite true m e => - mag m e
  | _ => 0
  end.

Definition is_finite (x : number) : bool :=
  match x with
  | Zero _ | Finite _ _ _ => true
  | _ => false
  end.

(** [x * y] *)
Definition mul (x y : number) : number :=
  match x, y with
  | NaN, _ | _, NaN => NaN
  | Infinity _, Zero _ | Zero _, Infinity _ => NaN
  | Infinity s1, (Infinity s2 | Finite s2 _ _)
  | Finite s1 _ _, Infinity s2 => Infinity (xorb s1 s2)
  | Zero s1, (Zero s2 | Finite s2 _ _)
  | Finite s1 _ _, Zero s2 => Zero (xorb s1 s2)
  | Finite s1 m1 e1, Finite s2 m2 e2 =>
      round_mag (xorb s1 s2) (mag m1 e1 * mag m2 e2)
  end.

(** [x / y] *)
Definition div (x y : number) : number :=
  match x, y with
  | NaN, _ | _, NaN => NaN
  | Infinity _, Infinity _ | Zero _, Zero _ => NaN
  | Infinity s1, (Zero s2 | Finite s2 _ _)
  | Finite s1 _ _, Zero s2 => Infinity (xorb s1 s2)
  | Zero s1, (Infinity s2 | Finite s2 _ _)
  | Finite s1 _ _, Infinity s2 => Zero (xorb s1 s2)
  | Finite s1 m1 e1, Finite s2 m2 e2 =>
      round_mag (xorb s1 s2) (mag m1 e1 / mag m2 e2)
  end.

(** The Number of sign [neg] whose magnitude is nearest to the
    non-negative rational [q]; the results of [%] and of [Math.floor],
    [Math.ceil] and [Math.round] are representable, so that nothing is
    rounded there. *)
Definition signed (neg : bool) (q : Q) : number :=
  match Qcompare q 0 with
  | Gt => round_mag neg q
  | _ => Zero neg
  end.

(** [x % y]: the remainder of the truncating division, with the sign of
    the dividend; it is always exactly representable. *)
Definition rem (x y : number) : number :=
  match x, y with
  | NaN, _ | _, NaN => NaN
  | Infinity _, _ | _, Zero _ => NaN
  | _, Infinity _ => x
  | Zero _, _ => x
  | Finite s1 m1 e1, Finite _ m2 e2 =>
      let a := mag m1 e1 in
      let b := mag m2 e2 in
      signed s1 (a - b * inject_Z (Qfloor (a / b)))
  end.

(** [Math.floor] *)
Definition Math_floor (x : number) : number :=
  match x with
  | Finite s m e =>
      let f := Qfloor (to_Q x) in
      if f <? 0 then signed true (inject_Z (- f)) else signed false (inject_Z f)
  | _ => x
  end.

(** [Math.ceil]: a value in (-1, 0) gives -0. *)
Definition Math_ceil (x : number) : number :=
  match x with
  | Finite s m e =>
      let c := Qceiling (to_Q x) in
      if c <? 0 then signed true (inject_Z (- c))
      else signed s (inject_Z c)
  | _ => x
  end.

(** [Math.round]: nearest integer, ties towards +∞; a value in
    [-0.5, 0) gives -0. *)
Definition Math_round (x : number) : number :=
  match x with
  | Finite s m e =>
      let r := Qfloor (to_Q x + (1 # 2)) in
      if r <? 0 then signed true (inject_Z (- r))
      else signed s (inject_Z r)
  | _ => x
  end.

(** Comparison of two Numbers that are not NaN. *)
Definition cmp (x y : number) : option comparison :=
  match x, y with
  | NaN, _ | _, NaN => None
  | Infinity s1, Infinity s2 =>
      Some (if Bool.eqb s1 s2 then Eq else if s1 then Lt else Gt)
  | Infinity s, _ => Some (if s then Lt else Gt)
  | _, Infinity s => Some (if s then Gt else Lt)
  | _, _ => Some (Qcompare (to_Q x) (to_Q y))
  end.

(** [x > y], [x >= y], [x < y], [x <= y]: false as soon as an operand
    is NaN. *)
Definition gt (x y : number) : bool :=
  match cmp x y with Some Gt => true | _ => false end.
Definition ge (x y : number) : bool :=
  match cmp x y with Some Gt | Some Eq => true | _ => false end.
Definition lt (x y : number) : bool :=
  match cmp x y with Some Lt => true | _ => false end.
Definition le (x y : number) : bool :=
  match cmp x y with Some Lt | Some Eq => true | _ => false end.

(** [ToBoolean] on Numbers: +0, -0 and NaN are falsy. *)
Definition ToBoolean (x : number) : bool :=
  match x with
  | NaN | Zero _ => false
  | _ => true
  end.

(** ** Decimal numerals *)

Local Open Scope string_scope.
Local Open Scope Z_scope.

Definition digit_char (d : Z) : ascii := ascii_of_N (48 + Z.to_N d).

Fixpoint digits_aux (fuel : nat) (n : Z) (acc : string) : string :=
  match fuel with
  | O => acc
  | S f =>
      let acc' := String (digit_char (n mod 10)) acc in
      if n <? 10 then acc' else digits_aux f (n / 10) acc'
  end.

(** The decimal numeral of a non-negative integer, without leading
    zeros. *)
Definition digits (n : Z) : string :=
  digits_aux (S (Z.to_nat (Z.log2 n))) n "".

Definition ndigits (n : Z) : Z := Z.of_nat (String.length (digits n)).

Fixpoint zeros (n : nat) : string :=
  match n with
  | O => ""
  | S n' => String "0" (zeros n')
  end.

(** ** Number::toString (radix 10)

    The language specification asks for integers [n], [k], [s] with
    [k >= 1], [10^(k-1) <= s < 10^k], such that the Number value of
    [s * 10^(n-k)] is [x] and [k] is as small as possible; among several
    [s] the one for which [s * 10^(n-k)] is closest to [x]. *)

(** The decimal [t * 10^p]. *)
Definition dec (t p : Z) : Q := inject_Z t * 10 ^ p.

(** The [n] with [10^(n-1) <= q < 10^n], for a positive rational [q]. *)
Definition decade (q : Q) : Z :=
  if Qle_bool 1 q then ndigits (Qfloor q)
  else 1 - ndigits (Qceiling (/ q) - 1).

Definition roundtrips (x : number) (t p : Z) : bool :=
  number_eqb (of_Q (dec t p)) x.

(** Of the two [k]-digit decimals that enclose [q], the one nearer to
    [q] (the even one when they are equally near). *)
Definition nearer (q : Q) (lo p : Z) : Z :=
  match Qcompare (q - dec lo p) (dec (lo + 1) p - q) with
  | Lt => lo
  | Gt => lo + 1
  | Eq => if Z.even lo then lo else lo + 1
  end.

(** Search for the least number of digits [k], starting from [k] and
    trying at most [fuel] lengths; [x] is a positive finite Number, [q]
    its value and [n] its decade.  Seventeen digits always suffice. *)
Fixpoint shortest (fuel : nat) (x : number) (q : Q) (n k : Z) : Z * Z :=
  let p := n - k in
  let lo := Qfloor (q * 10 ^ (- p)) in
  match fuel with
  | O => (nearer q lo p, p)
  | S f =>
      match roundtrips x lo p, roundtrips x (lo + 1) p with
      | true, true => (nearer q lo p, p)
      | true, false => (lo, p)
      | false, true => (lo + 1, p)
      | false, false => shortest f x q n (k + 1)
      end
  end.

(** Drops trailing zero digits of [t], raising the exponent. *)
Fixpoint strip_zeros (fuel : nat) (t p : Z) : Z * Z :=
  match fuel with
  | O => (t, p)
  | S f => if t mod 10 =? 0 then strip_zeros f (t / 10) (p + 1) else (t, p)
  end.

(** The digits [s] and the exponent [n] of the shortest decimal of a
    positive finite Number. *)
Definition shortest_decimal (m : positive) (e : Z) : Z * Z :=
  let q := mag m e in
  let '(t, p) := shortest 17 (Finite false m e) q (decade q) 1 in
  let '(s, p') := strip_zeros 20 t p in
  (s, ndigits s + p').

Definition substr (from len : Z) (s : string) : string :=
  substring (Z.to_nat from) (Z.to_nat len) s.

(** Layout of the digits [s] (a [k]-digit integer) with exponent [n]. *)
Definition layout (s n : Z) : string :=
  let k := ndigits s in
  let d := digits s in
  if (k <=? n) && (n <=? 21) then d ++ zeros (Z.to_nat (n - k))
  else if (0 <? n) && (n <=? 21) then substr 0 n d ++ "." ++ substr n (k - n) d
  else if (-6 <? n) && (n <=? 0) then "0." ++ zeros (Z.to_nat (- n)) ++ d
  else
    let e := n - 1 in
    let es := (if e <? 0 then "-" else "+") ++ digits (Z.abs e) in
    if k =? 1 then d ++ "e" ++ es
    else substr 0 1 d ++ "." ++ substr 1 (k - 1) d ++ "e" ++ es.

Definition Number_toString (x : number) : string :=
  match x with
  | NaN => "NaN"
  | Zero _ => "0"
  | Infinity neg => if neg then "-Infinity" else "Infinity"
  | Finite neg m e =>
      let '(s, n) := shortest_decimal m e in
      (if neg then "-" else "") ++ layout s n
  end.

(** ** parseInt

    Strings are sequences of code units below 256; the white space of
    the language in that range is TAB, LF, VT, FF, CR, SP and NBSP. *)

Definition is_white_space (c : ascii) : bool :=
  let n := N_of_ascii c in
  ((9 <=? n) && (n <=? 13) || (n =? 32) || (n =? 160))%N.

Fixpoint trim_start (s : string) : string :=
  match s with
  | String c s' => if is_white_space c then trim_start s' else s
  | EmptyString => s
  end.

(** The value of a digit in radix [R], if it is one. *)
Definition digit_value (R : Z) (c : ascii) : option Z :=
  let n := Z.of_N (N_of_ascii c) in
  let v :=
    if (48 <=? n) && (n <=? 57) then n - 48
    else if (97 <=? n) && (n <=? 122) then n - 87
    else if (65 <=? n) && (n <=? 90) then n - 55
    else 36 in
  if v <? R then Some v else None.

(** The integer denoted by the longest prefix of radix-[R] digits;
    [acc] is [None] until a digit has been read. *)
Fixpoint parse_digits (R : Z) (s : string) (acc : option Z) : option Z :=
  match s with
  | String c s' =>
      match digit_value R c with
      | Some d =>
          parse_digits R s'
            (Some (R * (match acc with Some a => a | None => 0 end) + d))
      | None => acc
      end
  | EmptyString => acc
  end.

Definition strip_sign (s : string) : bool * string :=
  match s with
  | String "-" r => (true, r)
  | String "+" r => (false, r)
  | _ => (false, s)
  end.

Definition strip_hex_prefix (s : string) : option string :=
  match s with
  | String "0" (String ("x" | "X") r) => Some r
  | _ => None
  end.

(** [parseInt(string, radix)] for a string and an integer radix. *)
Definition parseInt (s : string) (radix : Z) : number :=
  let '(neg, body) := strip_sign (trim_start s) in
  if (radix =? 0) || (2 <=? radix) && (radix <=? 36) then
    let R := if radix =? 0 then 10 else radix in
    let '(R, body) :=
      match strip_hex_prefix body with
      | Some r => if (radix =? 0) || (radix =? 16) then (16, r) else (R, body)
      | None => (R, body)
      end in
    match parse_digits R body None with
    | None => NaN
    | Some z => signed neg (inject_Z z)
    end
  else NaN.

(** ** Exceptions *)

Inductive error : Type :=
| InvalidInput
| NetworkError
| ParseError
| TypeError
| AssertionFailed.

Inductive result (A : Type) : Type :=
| Ok (a : A)
| Throw (err : error).
Arguments Ok {A} a.
Arguments Throw {A} err.

(** A call that throws ends the caller with the same exception:
    nothing in the module catches one. *)
#[export] Instance result_bind : MBind result :=
  fun A B (k : A -> result B) (r : result A) =>
    match r with
    | Ok a => k a
    | Throw err => Throw err
    end.

(** ** Big integers

    [BN] is the class of the library bn.js, which the module imports
    through [ethereumjs-util]; the library is not among the sources.
    Its constructor in base ten and its product are modelled as the
    library computes them: the constructor checks nothing in a string,
    and asserts that a Number is below [2^53]. *)

(** The first [n] characters of a string, and the rest. *)
Fixpoint string_take (n : nat) (s : string) : string :=
  match n, s with
  | S n', String c s' => String c (string_take n' s')
  | _, _ => ""
  end.

Fixpoint string_drop (n : nat) (s : string) : string :=
  match n, s with
  | S n', String _ s' => string_drop n' s'
  | _, _ => s
  end.

(** [str.replace(/\s+/g, '')] *)
Fixpoint remove_white_space (s : string) : string :=
  match s with
  | String c s' =>
      if is_white_space c then remove_white_space s'
      else String c (remove_white_space s')
  | EmptyString => s
  end.

Module BN.

(** An object holds a sign and limbs of 26 bits.  When every limb is
    in range the object is the integer it stands for.  The parser of
    strings can leave a limb out of range; what the library makes of
    such an object depends on its limb arithmetic, which is not
    followed: [OutOfRange] stays what it is. *)
Inductive t : Type :=
| Int (z : Z)
| OutOfRange.

(** The value that [parseBase] gives a character, whether it is a
    digit or not: the code minus 48 up to the digits, ten and more for
    the letters. *)
Definition char_value (ch : ascii) : Z :=
  let c := Z.of_N (N_of_ascii ch) - 48 in
  if 49 <=? c then c - 49 + 10
  else if 17 <=? c then c - 17 + 10
  else c.

(** [parseBase(str, start, end, 10)], on the characters from [start]
    to [end], continuing from [r]. *)
Fixpoint parseBase (s : string) (r : Z) : Z :=
  match s with
  | String c s' => parseBase s' (r * 10 + char_value c)
  | EmptyString => r
  end.

(** One limb of [_parseBase]: the object is multiplied by [pow]
    ([imuln]) and [word] is added to its lowest limb, with one carry
    when the sum reaches [2^26] ([_iaddn]). *)
Definition add_limb (x : t) (word pow : Z) : t :=
  match x with
  | Int v =>
      let v := v * pow in
      let w0 := v mod 67108864 in
      if w0 + word <? 67108864 then
        if 0 <=? w0 + word then Int (v + word) else OutOfRange
      else
        if w0 + word - 67108864 <? 67108864 then Int (v + word)
        else OutOfRange
  | OutOfRange => OutOfRange
  end.

(** [_parseBase(number, 10, start)]: [k] limbs of seven characters
    from the start, then a limb of the characters that are left. *)
Fixpoint parse_limbs (k : nat) (s : string) (x : t) : t :=
  match k with
  | O =>
      if String.eqb s "" then x
      else add_limb x (parseBase s 0) (10 ^ Z.of_nat (String.length s))
  | S k' =>
      parse_limbs k' (string_drop 7 s)
        (add_limb x (parseBase (string_take 7 s) 0) 10000000)
  end.

Definition negate (x : t) : t :=
  match x with
  | Int z => Int (- z)
  | OutOfRange => OutOfRange
  end.

(** [new BN(s, 10)] for a string [s]: the empty string is taken as
    the Number 0, white space is removed, a leading minus sign is the
    sign, and the rest is read limb by limb.  No character is
    refused. *)
Definition of_string (s : string) : t :=
  if String.eqb s "" then Int 0
  else
    let number := remove_white_space s in
    let parse (body : string) :=
      parse_limbs (Nat.div (String.length body) 7) body (Int 0) in
    match number with
    | String "-" body => negate (parse body)
    | _ => parse number
    end.

(** [new BN(x, 10)] for a Number [x]: NaN and the zeros are taken as
    0 ([number || 0]); the magnitude has to be below [2^53], or the
    assertion of [_initNumber] fails; the limbs are taken with bit
    operations, which drop a fraction. *)
Definition of_number (x : number) : result t :=
  match x with
  | NaN | Zero _ => Ok (Int 0)
  | Infinity _ => Throw AssertionFailed
  | Finite s m e =>
      let a := mag m e in
      if Qle_bool (inject_Z 9007199254740992) a then Throw AssertionFailed
      else Ok (Int (if s then - Qfloor a else Qfloor a))
  end.

(** [a.mul(b)] *)
Definition mul (a b : t) : t :=
  match a, b with
  | Int x, Int y => Int (x * y)
  | _, _ => OutOfRange
  end.

End BN.

(** ** The module *)

Definition GWEIRate : number := of_Z 1000000000.

(** Wei value of an estimated gas price in gwei. *)
Definition apiEstimateModifiedToWEI (estimate : number) : result BN.t :=
  Ok (BN.of_string (Number_toString (mul estimate GWEIRate))).

(** GWEI value, as a string, of an estimated gas price. *)
Definition convertApiValueToGWEI (val : string) : string :=
  Number_toString (div (parseInt val 10) (of_Z 10)).

(** A parameter that is left out takes its default. *)
Definition default_arg {A : Type} (d : A) (arg : option A) : A :=
  match arg with
  | Some a => a
  | None => d
  end.

(** Gas fee in wei. *)
Definition getWeiGasFee (estimate : number) (gasLimit : option number)
  : result BN.t :=
  let gasLimit := default_arg (of_Z 21000) gasLimit in
  apiEstimate ← apiEstimateModifiedToWEI estimate;
  limit ← BN.of_number gasLimit;
  Ok (BN.mul apiEstimate limit).

Section Renderable.

(** The two helpers of [./number], which is outside of the sources,
    are left abstract. *)
Variable renderFromWei : BN.t -> result string.
Variable weiToFiat : BN.t -> number -> string -> result string.

(** Gas fee in eth. *)
Definition getRenderableEthGasFee (estimate : number)
    (gasLimit : option number) : result string :=
  gasFee ← getWeiGasFee estimate gasLimit;
  renderFromWei gasFee.

(** Gas fee in fiat. *)
Definition getRenderableFiatGasFee (estimate conversionRate : number)
    (currencyCode : string) (gasLimit : option number) : result string :=
  wei ← getWeiGasFee estimate gasLimit;
  weiToFiat wei conversionRate currencyCode.

End Renderable.

(** [if (parsed !== '') parsed += ' '] *)
Definition spaced (parsed : string) : string :=
  if String.eqb parsed "" then parsed else parsed ++ " ".

(** Minutes to a readable wait time.  The flags that the source leaves
    undefined until they are set are booleans that start false. *)
Definition parseWaitTime (min : number) (strHour strMin strSec : string)
  : string :=
  let parsed := "" in
  let weeks := Math_floor (div min (of_Z 10080)) in
  let '(parsed, weekRendered) :=
    if ToBoolean weeks
    then (parsed ++ Number_toString weeks ++ "week", true)
    else (parsed, false) in
  let tempMin := rem min (of_Z 10080) in
  let days := Math_floor (div tempMin (of_Z 1440)) in
  let '(parsed, dayRendered, min) :=
    if ToBoolean days
    then (spaced parsed ++ Number_toString days ++ "day", true, tempMin)
    else (parsed, false, min) in
  let tempMin := rem min (of_Z 1440) in
  let hours := Math_floor (div tempMin (of_Z 60)) in
  let '(parsed, hourRendered, min) :=
    if negb weekRendered && ToBoolean hours
    then (spaced parsed ++ Number_toString hours ++ strHour, true, tempMin)
    else (parsed, false, min) in
  let tempMin := rem min (of_Z 60) in
  let minutes := Math_floor tempMin in
  let '(parsed, minRendered, min) :=
    if negb weekRendered && negb dayRendered && ge minutes (of_Z 1)
    then (spaced parsed ++ Number_toString minutes ++ strMin, true, tempMin)
    else (parsed, false, min) in
  let min := rem min (of_Z 1) in
  let seconds := div (mul (Math_round (mul min (of_Z 100))) (of_Z 3)) (of_Z 5) in
  let parsed :=
    if negb weekRendered && negb dayRendered && negb hourRendered
       && negb minRendered && gt seconds (of_Z 1)
    then spaced parsed ++ Number_toString (Math_ceil seconds) ++ strSec
    else parsed in
  parsed.

(** ** The estimate fetcher *)

(** A parsed JSON text. *)
#[warnings="-register-all"]
Inductive json : Type :=
| JNull
| JBool (b : bool)
| JNumber (x : number)
| JString (s : string)
| JArray (items : list json)
| JObject (fields : gmap string json).

(** A property value: [undefined] or a value of the parsed body. *)
Inductive value : Type :=
| Undefined
| Of (j : json).

(** What the environment gives back for a request: the response, whose
    [json()] resolves to the parsed body or rejects. *)
Record response : Type := { json_body : result json }.

Record request_init : Type := {
  referrer : string;
  referrerPolicy : string;
  method : string;
  mode : string
}.

(** Reading one of the properties named by the module from a value that
    is neither [null] nor [undefined]: arrays, strings, numbers and
    booleans have none of them. *)
Definition get (v : json) (key : string) : value :=
  match v with
  | JObject fields =>
      match fields !! key with
      | Some j => Of j
      | None => Undefined
      end
  | _ => Undefined
  end.

(** The arrow function that destructures the body and builds the
    estimates object; destructuring [null] throws a TypeError.  The
    diagnostic log is not modelled. *)
Definition basicEstimates_of (body : json) : result (gmap string value) :=
  match body with
  | JNull => Throw TypeError
  | _ =>
      let average := get body "average" in
      let avgWait := get body "avgWait" in
      let blockTime := get body "block_time" in
      let blockNum := get body "blockNum" in
      let fast := get body "fast" in
      let fastest := get body "fastest" in
      let fastestWait := get body "fastestWait" in
      let fastWait := get body "fastWait" in
      let safeLow := get body "safeLow" in
      let safeLowWait := get body "safeLowWait" in
      let speed := get body "speed" in
      let basicEstimates : gmap string value :=
        <["average" := average]> (
        <["averageWait" := avgWait]> (
        <["blockTime" := blockTime]> (
        <["blockNum" := blockNum]> (
        <["fast" := fast]> (
        <["fastest" := fastest]> (
        <["fastestWait" := fastestWait]> (
        <["fastWait" := fastWait]> (
        <["safeLow" := safeLow]> (
        <["safeLowWait" := safeLowWait]> (
        <["speed" := speed]> ∅)))))))))) in
      Ok basicEstimates
  end.

(** The request of [fetchBasicGasEstimates]. *)
Definition endpoint : string :=
  "https://ethgasstation.info/json/ethgasAPI.json".

Definition options : request_init :=
  {| referrer := "http://ethgasstation.info/json/";
     referrerPolicy := "no-referrer-when-downgrade";
     method := "GET";
     mode := "cors" |}.

Section Fetch.

(** The network, as the module sees it once the request has settled:
    the response, or the exception of the rejection.  Nothing limits
    the time a request takes; while it has not settled, neither has
    the promise of the module. *)
Variable fetch : string -> request_init -> result response.

(** Fetches the gas estimates from the gas station. *)
Definition fetchBasicGasEstimates : result (gmap string value) :=
  r ← fetch endpoint options;
  body ← json_body r;
  basicEstimates_of body.

End Fetch.

(** ** Notions used by the statements *)

(** The canonical form of a binary64 value. *)
Definition is_binary64 (x : number) : bool :=
  match x with
  | Finite _ m e =>
      ((2 ^ 52 <=? Z.pos m) && (Z.pos m <? 2 ^ 53)
         && (-1074 <=? e) && (e <=? 971))%Z
      || ((Z.pos m <? 2 ^ 52) && (e =? -1074))%Z
  | _ => true
  end.

(** The same value in the representation of the Standard Library's
    specification of IEEE 754 arithmetic. *)
Definition to_spec (x : number) : spec_float :=
  match x with
  | NaN => S754_nan
  | Infinity s => S754_infinity s
  | Zero s => S754_zero s
  | Finite s m e => S754_finite s m e
  end.

(** The exponent and the integer significand that [round_mag] chooses. *)
Definition rexp (q : Q) : Z := Z.max (ilog2 q - 52) (-1074).
Definition rint (q : Q) : Z := round_half_even (q * 2 ^ (- rexp q)).

(** The Number [x] holds the integer [G]. *)
Definition holds_integer (x : number) (G : Z) : Prop :=
  is_finite x = true /\ (to_Q x == inject_Z G)%Q.

(** The integer read so far. *)
Definition acc_value (acc : option Z) : Z :=
  match acc with
  | Some a => a
  | None => 0
  end.

(** Every character of the string is a decimal digit. *)
Fixpoint all_digits (s : string) : bool :=
  match s with
  | String c s' =>
      match digit_value 10 c with
      | Some _ => all_digits s'
      | None => false
      end
  | EmptyString => true
  end.

(** The string is empty or its first character is not a decimal
    digit. *)
Definition no_digit_ahead (s : string) : bool :=
  match s with
  | EmptyString => true
  | String c _ =>
      match digit_value 10 c with
      | Some _ => false
      | None => true
      end
  end.

(** After the leading white space and an optional sign, the string is
    empty or goes on with a character that is not a decimal digit. *)
Definition no_leading_integer (val : string) : bool :=
  no_digit_ahead (snd (strip_sign (trim_start val))).

(** The keys of the estimates object, and the keys that are copied
    under their own name. *)
Definition estimate_keys : list string :=
  ["average"; "averageWait"; "blockTime"; "blockNum"; "fast"; "fastest";
   "fastestWait"; "fastWait"; "safeLow"; "safeLowWait"; "speed"].

Definition copied_keys : list string :=
  ["average"; "blockNum"; "fast"; "fastest"; "fastestWait"; "fastWait";
   "safeLow"; "safeLowWait"; "speed"].

(** The body of the mocked endpoint of the specification. *)
Definition mocked_body : json :=
  JObject (<["average" := JNumber (of_Z 50)]> (
           <["avgWait" := JNumber (of_Z 1)]> (
           <["block_time" := JNumber (of_Z 13)]> ∅))).

(** Operands of every kind, to compare the arithmetic with the Standard
    Library's. *)
Definition sample_operands : list (number * number) :=
  let tenth := div (of_Z 1) (of_Z 10) in
  let third := div (of_Z 1) (of_Z 3) in
  let tiny := of_Q (1 / inject_Z (2 ^ 1074)) in
  let big := of_Z (2 ^ 1023) in
  [(tenth, of_Z 3); (of_Z (10 ^ 12), of_Z (10 ^ 9)); (third, third);
   (tiny, third); (tiny, tenth); (big, of_Z 2); (big, tenth);
   (of_Z 4611686019, of_Z 1000000000); (of_Z 7, tiny); (tiny, tiny);
   (of_Z 9007199254740993, third); (of_Z 50, of_Z 100); (of_Z 10081, of_Z 10080);
   (Zero true, tenth); (tenth, Infinity true); (Zero false, Infinity false);
   (Zero false, Zero true); (Infinity true, Infinity false); (NaN, tenth)].

(** The body is an object or [null]. *)
Definition is_object_or_null (body : json) : bool :=
  match body with
  | JNull | JObject _ => true
  | _ => false
  end.

(** The properties of the body that the fetcher reads. *)
Definition response_keys : list string :=
  ["average"; "avgWait"; "block_time"; "blockNum"; "fast"; "fastest";
   "fastestWait"; "fastWait"; "safeLow"; "safeLowWait"; "speed"].

(** The white space of the language among the code units below 256:
    TAB, LF, VT, FF, CR, SP and NBSP. *)
Definition white_space_code_units : list ascii :=
  ["009"; "010"; "011"; "012"; "013"; " "; "160"]%char.

(** Every character of the string is one of them. *)
Fixpoint all_white_space (s : string) : bool :=
  match s with
  | EmptyString => true
  | String c s' =>
      existsb (Ascii.eqb c) white_space_code_units && all_white_space s'
  end.

(** The wait time of a whole number [n] of minutes in integer
    arithmetic: the largest unit that is not zero, followed by the next
    smaller unit when that is not zero either. *)
Definition whole_minutes_text (n : Z) (strHour strMin : string) : string :=
  let weeks := n / 10080 in
  let days := n mod 10080 / 1440 in
  let hours := n mod 1440 / 60 in
  let minutes := n mod 60 in
  if 0 <? weeks then
    digits weeks ++ "week" ++
    (if 0 <? days then " " ++ digits days ++ "day" else "")
  else if 0 <? days then
    digits days ++ "day" ++
    (if 0 <? hours then " " ++ digits hours ++ strHour else "")
  else if 0 <? hours then
    digits hours ++ strHour ++
    (if 0 <? minutes then " " ++ digits minutes ++ strMin else "")
  else if 0 <? minutes then digits minutes ++ strMin
  else "".

(** * Properties *)

(** ** Agreement with the Standard Library's binary64

    [mul] and [div] give what [SFmul] and [SFdiv] of the Standard
    Library's specification of IEEE 754 give at precision 53 and
    maximal exponent 1024, on operands of every kind: normal and
    subnormal values, underflow, overflow, zeros, infinities and NaN. *)

Example mul_agrees_with_SFmul :
  List.map (fun '(a, b) => to_spec (mul a b)) sample_operands =
  List.map (fun '(a, b) => SFmul 53 1024 (to_spec a) (to_spec b))
    sample_operands.
Proof. vm_compute. reflexivity. Qed.

Example div_agrees_with_SFdiv :
  List.map (fun '(a, b) => to_spec (div a b)) sample_operands =
  List.map (fun '(a, b) => SFdiv 53 1024 (to_spec a) (to_spec b))
    sample_operands.
Proof. vm_compute. reflexivity. Qed.

(** The strings of some Numbers. *)
Example Number_toString_samples :
  List.map Number_toString
    [of_Q (5 # 2); of_Q (1 # 10); of_Q (1 # 3); of_Z (10 ^ 21);
     of_Z 123456789012345678901; of_Q (1 # 10000000); of_Q (1 # 1000000);
     of_Q (1 / inject_Z (2 ^ 1074)); of_Z (2 ^ 1024 - 2 ^ 971); of_Z (2 ^ 64);
     of_Q (- (2 # 3)); Zero true; NaN; Infinity true] =
  ["2.5"; "0.1"; "0.3333333333333333"; "1e+21"; "123456789012345680000";
   "1e-7"; "0.000001"; "5e-324"; "1.7976931348623157e+308";
   "18446744073709552000"; "-0.6666666666666666"; "0"; "NaN"; "-Infinity"].
Proof. vm_compute. reflexivity. Qed.

(** The big integers of some strings and Numbers: numerals, a string
    over seven characters, strings that hold letters, signs or a point,
    a fraction, NaN, and the first Number that is refused. *)
Example BN_of_string_samples :
  List.map BN.of_string
    ["0"; "21000"; "-42"; "12345678901234567890"; "NaN"; "1e+21";
     "Infinity"; "-Infinity"; "1.5"; "123456789.1"; "0.5"; ""] =
  [BN.Int 0; BN.Int 21000; BN.Int (-42); BN.Int 12345678901234567890;
   BN.Int 2423; BN.Int 23521; BN.Int 204705124; BN.Int (-204705124);
   BN.Int 85; BN.Int 12345678881; BN.OutOfRange; BN.Int 0].
Proof. vm_compute. reflexivity. Qed.

Example BN_of_number_samples :
  List.map BN.of_number
    [of_Z 21000; of_Q (3 # 2); of_Z (-5); NaN; of_Z (2 ^ 53 - 1);
     of_Z (2 ^ 53); of_Z (2 ^ 63); Infinity false] =
  [Ok (BN.Int 21000); Ok (BN.Int 1); Ok (BN.Int (-5)); Ok (BN.Int 0);
   Ok (BN.Int 9007199254740991); Throw AssertionFailed;
   Throw AssertionFailed; Throw AssertionFailed].
Proof. vm_compute. reflexivity. Qed.

(** ** Comparisons and truthiness *)

Lemma of_Z_0 : of_Z 0 = Zero false.
Proof. reflexivity. Qed.

Lemma gt_zero_truthy (x : number) : gt x (of_Z 0) = true -> ToBoolean x = true.
Proof.
  rewrite of_Z_0. destruct x as [|s|s|s m e]; cbn; try reflexivity; discriminate.
Qed.

(** ** Strings *)

Lemma append_nil_l (s : string) : "" ++ s = s.
Proof. reflexivity. Qed.

Lemma append_cons (c : ascii) (a b : string) :
  String c a ++ b = String c (a ++ b).
Proof. reflexivity. Qed.

Lemma append_nil_r (s : string) : s ++ "" = s.
Proof.
  induction s as [|c s IH]; [reflexivity|]. now rewrite append_cons, IH.
Qed.

Lemma append_assoc (a b c : string) : (a ++ b) ++ c = a ++ (b ++ c).
Proof.
  induction a as [|x a IH]; [reflexivity|]. now rewrite !append_cons, IH.
Qed.

Lemma append_eq_nil (a b : string) : a ++ b = "" -> a = "" /\ b = "".
Proof. destruct a; [auto | rewrite append_cons; discriminate]. Qed.

Lemma spaced_empty : spaced "" = "".
Proof. reflexivity. Qed.

Lemma spaced_nonempty (s : string) : s <> "" -> spaced s = s ++ " ".
Proof.
  intros H. unfold spaced. destruct (String.eqb_spec s ""); [contradiction | reflexivity].
Qed.

(** ** Numerals are not empty *)

Lemma digits_aux_acc (fuel : nat) (n : Z) (acc : string) :
  digits_aux fuel n acc = digits_aux fuel n "" ++ acc.
Proof.
  revert n acc. induction fuel as [|f IH]; intros n acc; [reflexivity|].
  cbn [digits_aux]. destruct (n <? 10).
  - reflexivity.
  - rewrite IH. rewrite (IH _ (String _ "")).
    now rewrite append_assoc.
Qed.

Lemma digits_nonempty (n : Z) : digits n <> "".
Proof.
  unfold digits. cbn [digits_aux]. destruct (n <? 10); [discriminate|].
  rewrite digits_aux_acc. intros [_ H]%append_eq_nil. discriminate.
Qed.

Lemma layout_nonempty (s n : Z) : layout s n <> "".
Proof.
  unfold layout.
  repeat match goal with |- context [if ?b then _ else _] => destruct b end;
    intros H; repeat (apply append_eq_nil in H as [? H]);
    try discriminate; now apply (digits_nonempty s).
Qed.

Lemma Number_toString_nonempty (x : number) : Number_toString x <> "".
Proof.
  destruct x as [|[]|s|s m e]; try discriminate.
  unfold Number_toString. destruct (shortest_decimal m e) as [t n].
  intros [_ H]%append_eq_nil. now apply layout_nonempty in H.
Qed.

Lemma segment_nonempty (x : number) (unit : string) :
  Number_toString x ++ unit <> "".
Proof.
  intros [H _]%append_eq_nil. now apply Number_toString_nonempty in H.
Qed.

(** ** The wait-time formatter *)

Section WaitTime.

Variables (min : number) (strHour strMin strSec : string).

Let weeks := Math_floor (div min (of_Z 10080)).
Let days := Math_floor (div (rem min (of_Z 10080)) (of_Z 1440)).

(** A week has been rendered: the days follow when there are some,
    and nothing else does. *)
Lemma parseWaitTime_weeks :
  ToBoolean weeks = true ->
  parseWaitTime min strHour strMin strSec =
    Number_toString weeks ++ "week" ++
    (if ToBoolean days then " " ++ Number_toString days ++ "day" else "").
Proof using Type.
  intros Hw. unfold parseWaitTime. fold weeks. rewrite Hw. fold days.
  destruct (ToBoolean days); cbn [negb andb].
  - rewrite append_nil_l, spaced_nonempty by apply segment_nonempty.
    now rewrite !append_assoc.
  - now rewrite append_nil_r.
Qed.

(** No week but a day has been rendered: the hours follow when there
    are some, and nothing else does. *)
Lemma parseWaitTime_days :
  let hours :=
    Math_floor (div (rem (rem min (of_Z 10080)) (of_Z 1440)) (of_Z 60)) in
  ToBoolean weeks = false ->
  ToBoolean days = true ->
  parseWaitTime min strHour strMin strSec =
    Number_toString days ++ "day" ++
    (if ToBoolean hours then " " ++ Number_toString hours ++ strHour else "").
Proof using Type.
  intros hours Hw Hd. unfold parseWaitTime. fold weeks. rewrite Hw.
  fold days. rewrite Hd. fold hours.
  destruct (ToBoolean hours); cbn [negb andb].
  - rewrite spaced_empty, append_nil_l.
    rewrite spaced_nonempty by apply segment_nonempty.
    now rewrite !append_assoc.
  - now rewrite spaced_empty, append_nil_l, append_nil_r.
Qed.

(** Neither a week nor a day but an hour has been rendered: the
    minutes follow when there is at least one, and the seconds do
    not. *)
Lemma parseWaitTime_hours :
  let hours := Math_floor (div (rem min (of_Z 1440)) (of_Z 60)) in
  let minutes := Math_floor (rem (rem min (of_Z 1440)) (of_Z 60)) in
  ToBoolean weeks = false ->
  ToBoolean days = false ->
  ToBoolean hours = true ->
  parseWaitTime min strHour strMin strSec =
    Number_toString hours ++ strHour ++
    (if ge minutes (of_Z 1)
     then " " ++ Number_toString minutes ++ strMin else "").
Proof using Type.
  intros hours minutes Hw Hd Hh. unfold parseWaitTime. fold weeks.
  rewrite Hw. fold days. rewrite Hd. fold hours. rewrite Hh.
  cbn [negb andb]. fold minutes.
  destruct (ge minutes (of_Z 1)); cbn [negb andb].
  - rewrite spaced_empty, append_nil_l.
    rewrite spaced_nonempty by apply segment_nonempty.
    now rewrite !append_assoc.
  - now rewrite spaced_empty, append_nil_l, append_nil_r.
Qed.

End WaitTime.

(** C4.  When [floor (min / 10080) > 0] the result is the weeks
    segment with the fixed label "week", followed by a days segment
    when the days are not zero, and by nothing else: hours, minutes and
    seconds are left out.  [parseWaitTime(10081, "h", "m", "s")] is
    "1week". *)
Theorem parseWaitTime_week_segment :
  (forall (min : number) (strHour strMin strSec : string),
     let weeks := Math_floor (div min (of_Z 10080)) in
     let days := Math_floor (div (rem min (of_Z 10080)) (of_Z 1440)) in
     gt weeks (of_Z 0) = true ->
     parseWaitTime min strHour strMin strSec =
       Number_toString weeks ++ "week" ++
       (if ToBoolean days then " " ++ Number_toString days ++ "day" else ""))
  /\ parseWaitTime (of_Z 10081) "h" "m" "s" = "1week".
Proof.
  split.
  - intros min strHour strMin strSec weeks days Hw.
    apply parseWaitTime_weeks. now apply gt_zero_truthy.
  - vm_compute. reflexivity.
Qed.

Lemma parseWaitTime_week_segment_witness :
  gt (Math_floor (div (of_Z 20000) (of_Z 10080))) (of_Z 0) = true /\
  parseWaitTime (of_Z 20000) "h" "m" "s" = "1week 6day".
Proof.
  split; [vm_compute; reflexivity|].
  rewrite (proj1 parseWaitTime_week_segment (of_Z 20000) "h" "m" "s")
    by (vm_compute; reflexivity).
  vm_compute. reflexivity.
Defined.

(** C3, as the source has it.  When no week is rendered and
    [floor ((min mod 10080) / 1440) > 0] the result is the days segment
    followed by the hours segment when the hours of the remainder are
    not zero; minutes and seconds are left out.
    [parseWaitTime(1500, "h", "m", "s")] is "1day 1h". *)
Theorem parseWaitTime_day_segment :
  (forall (min : number) (strHour strMin strSec : string),
     let weeks := Math_floor (div min (of_Z 10080)) in
     let days := Math_floor (div (rem min (of_Z 10080)) (of_Z 1440)) in
     let hours :=
       Math_floor (div (rem (rem min (of_Z 10080)) (of_Z 1440)) (of_Z 60)) in
     ToBoolean weeks = false ->
     gt days (of_Z 0) = true ->
     parseWaitTime min strHour strMin strSec =
       Number_toString days ++ "day" ++
       (if ToBoolean hours
        then " " ++ Number_toString hours ++ strHour else ""))
  /\ parseWaitTime (of_Z 1500) "h" "m" "s" = "1day 1h".
Proof.
  split.
  - intros min strHour strMin strSec weeks days hours Hw Hd.
    apply parseWaitTime_days; [exact Hw | now apply gt_zero_truthy].
  - vm_compute. reflexivity.
Qed.

Lemma parseWaitTime_day_segment_witness :
  ToBoolean (Math_floor (div (of_Z 2880) (of_Z 10080))) = false /\
  gt (Math_floor (div (rem (of_Z 2880) (of_Z 10080)) (of_Z 1440))) (of_Z 0)
    = true /\
  parseWaitTime (of_Z 2880) "h" "m" "s" = "2day".
Proof.
  split; [vm_compute; reflexivity|]. split; [vm_compute; reflexivity|].
  rewrite (proj1 parseWaitTime_day_segment (of_Z 2880) "h" "m" "s")
    by (vm_compute; reflexivity).
  vm_compute. reflexivity.
Defined.

(** C3 as stated fails at 1500 minutes: no week is rendered, the days
    are positive, and the hours are rendered after the days. *)
Lemma parseWaitTime_1500_renders_hours :
  ToBoolean (Math_floor (div (of_Z 1500) (of_Z 10080))) = false /\
  gt (Math_floor (div (rem (of_Z 1500) (of_Z 10080)) (of_Z 1440))) (of_Z 0)
    = true /\
  parseWaitTime (of_Z 1500) "h" "m" "s" = "1day 1h" /\
  parseWaitTime (of_Z 1500) "h" "m" "s" <> "1day".
Proof. vm_compute. repeat split; discriminate. Qed.

(** C2, as the source has it.  When neither a week nor a day is
    rendered and [floor ((min mod 1440) / 60) > 0] the result is the
    hours segment followed by the minutes segment when the minutes of
    the remainder are at least one; seconds are left out.
    [parseWaitTime(90, "h", "m", "s")] is "1h 30m". *)
Theorem parseWaitTime_hour_segment :
  (forall (min : number) (strHour strMin strSec : string),
     let weeks := Math_floor (div min (of_Z 10080)) in
     let days := Math_floor (div (rem min (of_Z 10080)) (of_Z 1440)) in
     let hours := Math_floor (div (rem min (of_Z 1440)) (of_Z 60)) in
     let minutes := Math_floor (rem (rem min (of_Z 1440)) (of_Z 60)) in
     ToBoolean weeks = false ->
     ToBoolean days = false ->
     gt hours (of_Z 0) = true ->
     parseWaitTime min strHour strMin strSec =
       Number_toString hours ++ strHour ++
       (if ge minutes (of_Z 1)
        then " " ++ Number_toString minutes ++ strMin else ""))
  /\ parseWaitTime (of_Z 90) "h" "m" "s" = "1h 30m".
Proof.
  split.
  - intros min strHour strMin strSec weeks days hours minutes Hw Hd Hh.
    apply parseWaitTime_hours; [exact Hw | exact Hd | now apply gt_zero_truthy].
  - vm_compute. reflexivity.
Qed.

Lemma parseWaitTime_hour_segment_witness :
  ToBoolean (Math_floor (div (of_Z 120) (of_Z 10080))) = false /\
  ToBoolean (Math_floor (div (rem (of_Z 120) (of_Z 10080)) (of_Z 1440)))
    = false /\
  gt (Math_floor (div (rem (of_Z 120) (of_Z 1440)) (of_Z 60))) (of_Z 0)
    = true /\
  parseWaitTime (of_Z 120) "h" "m" "s" = "2h".
Proof.
  split; [vm_compute; reflexivity|]. split; [vm_compute; reflexivity|].
  split; [vm_compute; reflexivity|].
  rewrite (proj1 parseWaitTime_hour_segment (of_Z 120) "h" "m" "s")
    by (vm_compute; reflexivity).
  vm_compute. reflexivity.
Defined.

(** C2 as stated fails at 90 minutes: neither a week nor a day is
    rendered, the hours are positive, and the minutes are rendered
    after the hours. *)
Lemma parseWaitTime_90_renders_minutes :
  ToBoolean (Math_floor (div (of_Z 90) (of_Z 10080))) = false /\
  ToBoolean (Math_floor (div (rem (of_Z 90) (of_Z 10080)) (of_Z 1440)))
    = false /\
  gt (Math_floor (div (rem (of_Z 90) (of_Z 1440)) (of_Z 60))) (of_Z 0)
    = true /\
  parseWaitTime (of_Z 90) "h" "m" "s" = "1h 30m" /\
  parseWaitTime (of_Z 90) "h" "m" "s" <> "1h".
Proof. vm_compute. repeat split; discriminate. Qed.

(** ** The GWEI value of a string without a leading integer *)

Lemma parse_digits_stop (rest : string) (acc : option Z) :
  no_digit_ahead rest = true -> parse_digits 10 rest acc = acc.
Proof.
  destruct rest as [|c rest]; [reflexivity|]. cbn [no_digit_ahead parse_digits].
  destruct (digit_value 10 c); [discriminate | reflexivity].
Qed.

Lemma parseInt_no_leading_integer (val : string) :
  no_leading_integer val = true -> parseInt val 10 = NaN.
Proof.
  unfold no_leading_integer, parseInt.
  destruct (strip_sign (trim_start val)) as [neg body]. cbn [snd]. intros H.
  change ((10 =? 0) || (2 <=? 10) && (10 <=? 36)) with true.
  cbv iota. change (10 =? 0) with false. change (10 =? 16) with false.
  cbn [orb]. cbv iota.
  destruct (strip_hex_prefix body); now rewrite parse_digits_stop.
Qed.

(** C9.  [convertApiValueToGWEI] is a total function of the string: it
    raises nothing, and on every string without a leading integer it
    returns "NaN". *)
Theorem convertApiValueToGWEI_not_a_number (val : string) :
  no_leading_integer val = true ->
  convertApiValueToGWEI val = "NaN".
Proof.
  intros H. unfold convertApiValueToGWEI.
  now rewrite (parseInt_no_leading_integer val H).
Qed.

Lemma convertApiValueToGWEI_not_a_number_witness :
  no_leading_integer "  -gwei" = true /\
  convertApiValueToGWEI "  -gwei" = "NaN".
Proof.
  split; [reflexivity|].
  apply (convertApiValueToGWEI_not_a_number "  -gwei"). reflexivity.
Defined.

(** ** The estimate fetcher *)

Lemma basicEstimates_of_not_null (body : json) :
  body <> JNull ->
  exists out : gmap string value,
    basicEstimates_of body = Ok out /\
    dom out = list_to_set estimate_keys /\
    out !! "averageWait" = Some (get body "avgWait") /\
    out !! "blockTime" = Some (get body "block_time") /\
    forall key : string, key ∈ copied_keys -> out !! key = Some (get body key).
Proof.
  intros Hbody.
  assert (H : exists out, basicEstimates_of body = Ok out /\
     out = <["average" := get body "average"]> (
        <["averageWait" := get body "avgWait"]> (
        <["blockTime" := get body "block_time"]> (
        <["blockNum" := get body "blockNum"]> (
        <["fast" := get body "fast"]> (
        <["fastest" := get body "fastest"]> (
        <["fastestWait" := get body "fastestWait"]> (
        <["fastWait" := get body "fastWait"]> (
        <["safeLow" := get body "safeLow"]> (
        <["safeLowWait" := get body "safeLowWait"]> (
        <["speed" := get body "speed"]> (∅ : gmap string value)))))))))))).
  { destruct body; [contradiction | eexists; split; reflexivity ..]. }
  destruct H as (out & Hout & Heq). exists out. split; [exact Hout|].
  subst out.
  split; [|split; [|split]].
  - rewrite !dom_insert_L, dom_empty_L. unfold estimate_keys. cbn. set_solver.
  - by simplify_map_eq.
  - by simplify_map_eq.
  - intros key Hkey. unfold copied_keys in Hkey.
    repeat (apply elem_of_cons in Hkey as [-> | Hkey]; [by simplify_map_eq|]).
    by apply elem_of_nil in Hkey.
Qed.

(** C7, as the source has it.  For every response that was fetched and
    whose body parsed to a JSON value other than [null], the estimates
    object holds the [avgWait] of the body under [averageWait], its
    [block_time] under [blockTime], and the nine other properties under
    their own names, values unchanged. *)
Theorem fetchBasicGasEstimates_renames
    (fetch : string -> request_init -> result response)
    (r : response) (body : json) :
  fetch endpoint options = Ok r ->
  json_body r = Ok body ->
  body <> JNull ->
  exists out : gmap string value,
    fetchBasicGasEstimates fetch = Ok out /\
    out !! "averageWait" = Some (get body "avgWait") /\
    out !! "blockTime" = Some (get body "block_time") /\
    forall key : string, key ∈ copied_keys -> out !! key = Some (get body key).
Proof.
  intros Hfetch Hjson Hbody.
  destruct (basicEstimates_of_not_null body Hbody)
    as (out & Hout & _ & Havg & Hblock & Hcopy).
  exists out. unfold fetchBasicGasEstimates.
  rewrite Hfetch. cbn. rewrite Hjson. cbn. auto.
Qed.

Lemma fetchBasicGasEstimates_renames_witness :
  exists out : gmap string value,
    fetchBasicGasEstimates (fun _ _ => Ok {| json_body := Ok mocked_body |})
      = Ok out /\
    out !! "averageWait" = Some (Of (JNumber (of_Z 1))) /\
    out !! "blockTime" = Some (Of (JNumber (of_Z 13))).
Proof.
  destruct (fetchBasicGasEstimates_renames
              (fun _ _ => Ok {| json_body := Ok mocked_body |})
              {| json_body := Ok mocked_body |} mocked_body
              eq_refl eq_refl ltac:(discriminate))
    as (out & Hout & Havg & Hblock & _).
  exists out. split; [exact Hout|]. split; [exact Havg | exact Hblock].
Defined.

(** C7 as stated fails on the body [null], which is fetched and parsed
    without an error: destructuring it throws. *)
Lemma fetchBasicGasEstimates_null_body :
  fetchBasicGasEstimates (fun _ _ => Ok {| json_body := Ok JNull |})
  = Throw TypeError.
Proof. reflexivity. Qed.

(** C10.  The function does not validate the shape of the body: for
    every body that parses to a JSON object it succeeds, the result has
    exactly the eleven keys, a property that the body lacks is
    [undefined] in the result, and the other properties of the body are
    not in the result. *)
Theorem fetchBasicGasEstimates_no_validation
    (fetch : string -> request_init -> result response)
    (r : response) (fields : gmap string json) :
  fetch endpoint options = Ok r ->
  json_body r = Ok (JObject fields) ->
  exists out : gmap string value,
    fetchBasicGasEstimates fetch = Ok out /\
    dom out = list_to_set estimate_keys /\
    (fields !! "avgWait" = None -> out !! "averageWait" = Some Undefined) /\
    (fields !! "block_time" = None -> out !! "blockTime" = Some Undefined) /\
    (forall key : string,
       key ∈ copied_keys -> fields !! key = None ->
       out !! key = Some Undefined) /\
    (forall key : string, key ∉ estimate_keys -> out !! key = None).
Proof.
  intros Hfetch Hjson.
  destruct (basicEstimates_of_not_null (JObject fields) ltac:(discriminate))
    as (out & Hout & Hdom & Havg & Hblock & Hcopy).
  exists out. unfold fetchBasicGasEstimates.
  rewrite Hfetch. cbn. rewrite Hjson. cbn.
  split; [exact Hout|]. split; [exact Hdom|].
  split; [|split; [|split]].
  - intros Hnone. rewrite Havg. cbn. now rewrite Hnone.
  - intros Hnone. rewrite Hblock. cbn. now rewrite Hnone.
  - intros key Hkey Hnone. rewrite (Hcopy key Hkey). cbn. now rewrite Hnone.
  - intros key Hkey. apply not_elem_of_dom. rewrite Hdom.
    now rewrite elem_of_list_to_set.
Qed.

Lemma fetchBasicGasEstimates_no_validation_witness :
  exists out : gmap string value,
    fetchBasicGasEstimates
      (fun _ _ => Ok {| json_body := Ok (JObject {["extra" := JNull]}) |})
      = Ok out /\
    dom out = list_to_set estimate_keys /\
    out !! "speed" = Some Undefined /\
    out !! "extra" = None.
Proof.
  destruct (fetchBasicGasEstimates_no_validation
              (fun _ _ => Ok {| json_body := Ok (JObject {["extra" := JNull]}) |})
              {| json_body := Ok (JObject {["extra" := JNull]}) |}
              {["extra" := JNull]} eq_refl eq_refl)
    as (out & Hout & Hdom & _ & _ & Hcopy & Hextra).
  exists out. split; [exact Hout|]. split; [exact Hdom|]. split.
  - apply Hcopy; [|reflexivity].
    apply (bool_decide_unpack _). vm_compute. exact I.
  - apply Hextra. apply (bool_decide_unpack _). vm_compute. exact I.
Defined.
(** ** Powers in the rationals *)

Local Open Scope Q_scope.

Lemma Qpow_pos (b : Q) (z : Z) : 0 < b -> 0 < b ^ z.
Proof. apply Qpower_0_lt. Qed.

Lemma Qpow_add (b : Q) (x y : Z) : 0 < b -> b ^ (x + y) == b ^ x * b ^ y.
Proof.
  intros Hb. apply Qpower_plus. intros H. rewrite H in Hb. discriminate.
Qed.

Lemma Qpow_cancel (b : Q) (x : Z) : 0 < b -> b ^ x * b ^ (- x) == 1.
Proof.
  intros Hb. rewrite <- Qpow_add by exact Hb.
  now replace (x + - x)%Z with 0%Z by lia.
Qed.

Lemma Qpow_inject (B n : Z) : (0 <= n)%Z -> inject_Z (B ^ n) == inject_Z B ^ n.
Proof. apply Zpower_Qpower. Qed.

Lemma pow2_inject (n : Z) : (0 <= n)%Z -> inject_Z (2 ^ n) == 2 ^ n.
Proof. apply (Qpow_inject 2). Qed.

Lemma pow10_inject (n : Z) : (0 <= n)%Z -> inject_Z (10 ^ n) == 10 ^ n.
Proof. apply (Qpow_inject 10). Qed.

Lemma two_pos : 0 < 2.
Proof. reflexivity. Qed.

Lemma ten_pos : 0 < 10.
Proof. reflexivity. Qed.

Lemma pow2_mono (a b : Z) : (a <= b)%Z -> 2 ^ a <= 2 ^ b.
Proof. intros H. apply Qpower_le_compat_l; [exact H | discriminate]. Qed.

Lemma pow2_mono_lt (a b : Z) : (a < b)%Z -> 2 ^ a < 2 ^ b.
Proof. intros H. apply Qpower_lt_compat_l; [exact H | reflexivity]. Qed.

Lemma pow10_mono (a b : Z) : (a <= b)%Z -> 10 ^ a <= 10 ^ b.
Proof. intros H. apply Qpower_le_compat_l; [exact H | discriminate]. Qed.

Lemma pow10_mono_lt (a b : Z) : (a < b)%Z -> 10 ^ a < 10 ^ b.
Proof. intros H. apply Qpower_lt_compat_l; [exact H | reflexivity]. Qed.

Lemma pow2_succ (a : Z) : 2 ^ (a + 1) == 2 * 2 ^ a.
Proof. rewrite Qpow_add by reflexivity. change (2 ^ 1) with 2. ring. Qed.

(** ** The binary exponent *)

Lemma ilog2_spec (q : Q) :
  0 < q -> 2 ^ ilog2 q <= q /\ q < 2 ^ (ilog2 q + 1).
Proof.
  intros Hq. unfold ilog2. destruct (Qle_bool 1 q) eqn:H1.
  - apply Qle_bool_iff in H1.
    assert (Hf : (1 <= Qfloor q)%Z).
    { change 1%Z with (Qfloor (inject_Z 1)). now apply Qfloor_resp_le. }
    destruct (Z.log2_spec (Qfloor q)) as [Hlo Hhi]; [lia|].
    pose proof (Z.log2_nonneg (Qfloor q)) as Hnn.
    split.
    + rewrite <- pow2_inject by exact Hnn.
      eapply Qle_trans; [|apply Qfloor_le]. now rewrite <- Zle_Qle.
    + eapply Qlt_le_trans; [apply Qlt_floor|].
      rewrite <- pow2_inject by lia. rewrite <- Zle_Qle.
      replace (Z.log2 (Qfloor q) + 1)%Z with (Z.succ (Z.log2 (Qfloor q))) by lia.
      lia.
  - assert (Hlt : q < 1).
    { apply Qnot_le_lt. intros H. apply Qle_bool_iff in H. congruence. }
    assert (Hinv : 1 < / q).
    { apply Qlt_shift_inv_l; [exact Hq | now rewrite Qmult_1_l]. }
    set (c := Qceiling (/ q)).
    assert (Hc : (2 <= c)%Z).
    { assert (inject_Z 1 < inject_Z c).
      { eapply Qlt_le_trans; [exact Hinv | apply Qle_ceiling]. }
      rewrite <- Zlt_Qlt in H. lia. }
    destruct (Z.log2_up_spec c) as [Hlo Hhi]; [lia|].
    pose proof (Z.log2_up_nonneg c) as Hnn.
    set (J := Z.log2_up c) in *.
    assert (HJ : (1 <= J)%Z).
    { destruct (Z.le_gt_cases J 0) as [H0|H0]; [|lia].
      replace J with 0%Z in Hhi by lia. cbn in Hhi. lia. }
    split.
    + rewrite Qpower_opp.
      apply Qle_shift_inv_r; [apply Qpow_pos; reflexivity|].
      assert (H : / q <= 2 ^ J).
      { eapply Qle_trans; [apply Qle_ceiling|]. fold c.
        rewrite <- pow2_inject by lia. now rewrite <- Zle_Qle. }
      apply (Qmult_le_r _ _ q) in H; [|exact Hq].
      rewrite (Qmult_comm (/ q)), Qmult_inv_r in H; [|lra].
      lra.
    + replace (- J + 1)%Z with (- (J - 1))%Z by lia.
      rewrite Qpower_opp.
      apply Qlt_shift_inv_l; [apply Qpow_pos; reflexivity|].
      assert (H : 2 ^ (J - 1) < / q).
      { eapply Qle_lt_trans; [|apply Qceiling_lt]. fold c.
        rewrite <- pow2_inject by lia.
        rewrite <- Zle_Qle. replace (J - 1)%Z with (Z.pred J) by lia. lia. }
      apply (Qmult_lt_r _ _ q) in H; [|exact Hq].
      rewrite (Qmult_comm (/ q)), Qmult_inv_r in H; [|lra].
      lra.
Qed.

Lemma ilog2_unique (q : Q) (E : Z) :
  2 ^ E <= q -> q < 2 ^ (E + 1) -> ilog2 q = E.
Proof.
  intros Hlo Hhi.
  assert (Hq : 0 < q).
  { eapply Qlt_le_trans; [|exact Hlo]. apply Qpow_pos. reflexivity. }
  destruct (ilog2_spec q Hq) as [Hlo' Hhi'].
  assert (H1 : (E < ilog2 q + 1)%Z).
  { apply (Qpower_lt_compat_l_inv 2); [|reflexivity].
    eapply Qle_lt_trans; [exact Hlo | exact Hhi']. }
  assert (H2 : (ilog2 q < E + 1)%Z).
  { apply (Qpower_lt_compat_l_inv 2); [|reflexivity].
    eapply Qle_lt_trans; [exact Hlo' | exact Hhi]. }
  lia.
Qed.

Lemma ilog2_lt (q : Q) (j : Z) : 0 < q -> q < 2 ^ j -> (ilog2 q < j)%Z.
Proof.
  intros Hq Hj. destruct (ilog2_spec q Hq) as [Hlo _].
  apply (Qpower_lt_compat_l_inv 2); [|reflexivity].
  eapply Qle_lt_trans; [exact Hlo | exact Hj].
Qed.

Lemma ilog2_ge (q : Q) (j : Z) : 2 ^ j <= q -> (j <= ilog2 q)%Z.
Proof.
  intros Hj.
  assert (Hq : 0 < q).
  { eapply Qlt_le_trans; [|exact Hj]. apply Qpow_pos. reflexivity. }
  destruct (ilog2_spec q Hq) as [_ Hhi].
  assert (j < ilog2 q + 1)%Z; [|lia].
  apply (Qpower_lt_compat_l_inv 2); [|reflexivity].
  eapply Qle_lt_trans; [exact Hj | exact Hhi].
Qed.

#[export] Instance ilog2_proper : Proper (Qeq ==> eq) ilog2.
Proof.
  intros q q' H. unfold ilog2.
  assert (Hb : Qle_bool 1 q = Qle_bool 1 q').
  { apply eq_true_iff_eq. rewrite !Qle_bool_iff. now rewrite H. }
  rewrite Hb. destruct (Qle_bool 1 q').
  - f_equal. now apply Qfloor_comp.
  - do 2 f_equal. apply Qceiling_comp. now rewrite H.
Qed.

(** ** Rounding to the nearest integer *)

Lemma round_half_even_spec (r : Q) :
  inject_Z (round_half_even r) - (1 # 2) <= r /\
  r <= inject_Z (round_half_even r) + (1 # 2).
Proof.
  unfold round_half_even.
  pose proof (Qfloor_le r) as Hlo. pose proof (Qlt_floor r) as Hhi.
  rewrite inject_Z_plus in Hhi. change (inject_Z 1) with 1 in Hhi.
  destruct (Qcompare_spec (r - inject_Z (Qfloor r)) (1 # 2)) as [H|H|H];
    [destruct (Z.even (Qfloor r))|..];
    rewrite ?inject_Z_plus; change (inject_Z 1) with 1; lra.
Qed.

#[export] Instance round_half_even_proper : Proper (Qeq ==> eq) round_half_even.
Proof.
  intros r r' H. unfold round_half_even.
  rewrite (Qfloor_comp _ _ H).
  assert (Hc : (r - inject_Z (Qfloor r') ?= 1 # 2) =
               (r' - inject_Z (Qfloor r') ?= 1 # 2)) by now rewrite H.
  now rewrite Hc.
Qed.

Lemma round_half_even_Z (n : Z) : round_half_even (inject_Z n) = n.
Proof.
  unfold round_half_even. rewrite Qfloor_Z.
  destruct (Qcompare_spec (inject_Z n - inject_Z n) (1 # 2)) as [H|H|H];
    [lra | reflexivity | lra].
Qed.

Lemma round_half_even_le (r : Q) (N : Z) :
  r <= inject_Z N -> (round_half_even r <= N)%Z.
Proof.
  intros H. destruct (round_half_even_spec r) as [Hlo _].
  assert (Hlt : inject_Z (round_half_even r) < inject_Z (N + 1)).
  { rewrite inject_Z_plus. change (inject_Z 1) with 1. lra. }
  rewrite <- Zlt_Qlt in Hlt. lia.
Qed.

Lemma round_half_even_ge (r : Q) (N : Z) :
  inject_Z N <= r -> (N <= round_half_even r)%Z.
Proof.
  intros H. destruct (round_half_even_spec r) as [_ Hhi].
  assert (Hlt : inject_Z N < inject_Z (round_half_even r + 1)).
  { rewrite inject_Z_plus. change (inject_Z 1) with 1. lra. }
  rewrite <- Zlt_Qlt in Hlt. lia.
Qed.

(** ** Rounding to a Number *)

#[export] Instance rexp_proper : Proper (Qeq ==> eq) rexp.
Proof. intros q q' H. unfold rexp. now rewrite H. Qed.

#[export] Instance rint_proper : Proper (Qeq ==> eq) rint.
Proof.
  intros q q' H. unfold rint. rewrite (rexp_proper _ _ H).
  apply round_half_even_proper. now rewrite H.
Qed.

Lemma rint_range (q : Q) : 0 < q -> (0 <= rint q <= 2 ^ 53)%Z.
Proof.
  intros Hq. unfold rint.
  pose proof (Qpow_pos 2 (- rexp q) two_pos) as Hp.
  split.
  - apply round_half_even_ge. change (inject_Z 0) with 0.
    apply Qlt_le_weak, Qmult_lt_0_compat; assumption.
  - apply round_half_even_le.
    destruct (ilog2_spec q Hq) as [_ Hhi].
    rewrite pow2_inject by lia.
    assert (Hle : 2 ^ (ilog2 q + 1) <= 2 ^ (53 + rexp q)).
    { apply pow2_mono. unfold rexp. lia. }
    rewrite (Qpow_add 2 53) in Hle by reflexivity.
    apply Qlt_le_weak.
    apply (Qmult_lt_r _ _ (2 ^ rexp q)); [apply Qpow_pos; reflexivity|].
    rewrite <- Qmult_assoc, (Qmult_comm (2 ^ (- rexp q))), Qpow_cancel by reflexivity.
    lra.
Qed.

Lemma round_mag_unfold (neg : bool) (q : Q) :
  0 < q ->
  round_mag neg q =
    let t := rint q in
    let e := if (t =? 2 ^ 53)%Z then (rexp q + 1)%Z else rexp q in
    if (t =? 0)%Z then Zero neg
    else if (e >? 971)%Z then Infinity neg
    else Finite neg
           (if (t =? 2 ^ 53)%Z then 4503599627370496%positive else Z.to_pos t) e.
Proof.
  intros Hq. pose proof (rint_range q Hq) as Ht.
  unfold round_mag. fold (rexp q). fold (rint q). cbv zeta.
  destruct (Z.eqb_spec (rint q) (2 ^ 53)) as [H53|H53].
  - rewrite H53. reflexivity.
  - destruct (rint q) as [|t|t] eqn:Hr; [reflexivity| |lia].
    reflexivity.
Qed.

#[export] Instance round_mag_proper : Proper (eq ==> Qeq ==> eq) round_mag.
Proof.
  intros neg ? <- q q' H. unfold round_mag.
  fold (rexp q) (rexp q') (rint q) (rint q').
  now rewrite (rexp_proper _ _ H), (rint_proper _ _ H).
Qed.

(** The value of the result is the chosen significand times two to
    the chosen exponent. *)
Lemma round_mag_value (neg : bool) (q : Q) (s : bool) (m : positive) (e : Z) :
  0 < q -> round_mag neg q = Finite s m e ->
  s = neg /\ mag m e == inject_Z (rint q) * 2 ^ rexp q.
Proof.
  intros Hq. rewrite (round_mag_unfold neg q Hq). cbv zeta.
  pose proof (rint_range q Hq) as Ht.
  destruct (Z.eqb_spec (rint q) 0) as [H0|H0]; [discriminate|].
  destruct (Z.eqb_spec (rint q) (2 ^ 53)) as [H53|H53].
  - destruct (rexp q + 1 >? 971)%Z; [discriminate|].
    intros [= <- <- <-]. split; [reflexivity|]. unfold mag.
    rewrite H53, pow2_succ.
    change (inject_Z (2 ^ 53)) with (2 * inject_Z 4503599627370496). ring.
  - destruct (rexp q >? 971)%Z; [discriminate|].
    intros [= <- <- <-]. split; [reflexivity|]. unfold mag.
    rewrite Z2Pos.id by lia. reflexivity.
Qed.

(** A value below [2^j] does not round above [2^j]. *)
Lemma round_mag_below (neg : bool) (q : Q) (j : Z) :
  0 < q -> q < 2 ^ j -> (-1074 <= j <= 1023)%Z ->
  match round_mag neg q with
  | Zero s => s = neg
  | Finite s m e => s = neg /\ mag m e <= 2 ^ j
  | _ => False
  end.
Proof.
  intros Hq Hj Hrange.
  pose proof (ilog2_lt q j Hq Hj) as HE.
  assert (He : (rexp q <= j)%Z) by (unfold rexp; lia).
  assert (Ht : (rint q <= 2 ^ (j - rexp q))%Z).
  { apply round_half_even_le. rewrite pow2_inject by lia.
    unfold Z.sub. rewrite Qpow_add by reflexivity.
    apply Qlt_le_weak, Qmult_lt_compat_r; [apply Qpow_pos; reflexivity | exact Hj]. }
  pose proof (rint_range q Hq) as Ht'.
  destruct (round_mag neg q) as [|s|s|s m e] eqn:Hr.
  - rewrite (round_mag_unfold neg q Hq) in Hr. cbv zeta in Hr.
    destruct (rint q =? 0)%Z; [discriminate|].
    destruct (_ >? 971)%Z; discriminate.
  - rewrite (round_mag_unfold neg q Hq) in Hr. cbv zeta in Hr.
    destruct (rint q =? 0)%Z; [discriminate|].
    destruct (Z.eqb_spec (rint q) (2 ^ 53)) as [H53|H53].
    + destruct (Z.gtb_spec (rexp q + 1) 971) as [Hgt|Hgt]; [|discriminate].
      unfold rexp in Hgt. lia.
    + destruct (Z.gtb_spec (rexp q) 971) as [Hgt|Hgt]; [|discriminate].
      unfold rexp in Hgt. lia.
  - rewrite (round_mag_unfold neg q Hq) in Hr. cbv zeta in Hr.
    destruct (rint q =? 0)%Z; [now injection Hr|].
    destruct (_ >? 971)%Z; discriminate.
  - destruct (round_mag_value neg q s m e Hq Hr) as [-> Hv].
    split; [reflexivity|]. rewrite Hv.
    apply (Qle_trans _ (inject_Z (2 ^ (j - rexp q)) * 2 ^ rexp q)).
    + apply Qmult_le_compat_r; [now rewrite <- Zle_Qle|].
      apply Qlt_le_weak, Qpow_pos. reflexivity.
    + rewrite pow2_inject by lia. rewrite <- Qpow_add by reflexivity.
      replace (j - rexp q + rexp q)%Z with j by lia. apply Qle_refl.
Qed.

(** In the normal range the relative error is at most [2^-53]. *)
Lemma round_mag_error (neg : bool) (q : Q) (s : bool) (m : positive) (e : Z) :
  2 ^ (-1022) <= q -> round_mag neg q = Finite s m e ->
  q - q * 2 ^ (-53) <= mag m e /\ mag m e <= q + q * 2 ^ (-53).
Proof.
  intros Hn Hr.
  assert (Hq : 0 < q).
  { eapply Qlt_le_trans; [|exact Hn]. reflexivity. }
  destruct (round_mag_value neg q s m e Hq Hr) as [_ Hv]. rewrite Hv.
  pose proof (ilog2_ge q (-1022) Hn) as HE.
  assert (He : rexp q = (ilog2 q - 52)%Z) by (unfold rexp; lia).
  destruct (ilog2_spec q Hq) as [Hlo _].
  replace (ilog2 q) with (rexp q + 52)%Z in Hlo by lia.
  rewrite Qpow_add in Hlo by reflexivity.
  destruct (round_half_even_spec (q * 2 ^ (- rexp q))) as [H1 H2].
  fold (rint q) in H1, H2.
  pose proof (Qpow_pos 2 (rexp q) two_pos) as Hp.
  pose proof (Qpow_cancel 2 (rexp q) two_pos) as Hc.
  set (P := 2 ^ rexp q) in *. set (P' := 2 ^ (- rexp q)) in *.
  set (T := inject_Z (rint q)) in *.
  change (2 ^ 52) with (4503599627370496 # 1) in Hlo.
  change (2 ^ (-53)) with (1 # 9007199254740992).
  assert (H1' : (T - (1 # 2)) * P <= q * P' * P).
  { apply Qmult_le_compat_r; lra. }
  assert (H2' : q * P' * P <= (T + (1 # 2)) * P).
  { apply Qmult_le_compat_r; lra. }
  assert (Hqq : q * P' * P == q).
  { rewrite <- Qmult_assoc, (Qmult_comm P'), Hc. ring. }
  rewrite Hqq in H1', H2'. lra.
Qed.

(** ** Numbers that are binary64 values *)

Lemma mag_pos (m : positive) (e : Z) : 0 < mag m e.
Proof.
  unfold mag. apply Qmult_lt_0_compat; [|apply Qpow_pos; reflexivity].
  change 0 with (inject_Z 0). rewrite <- Zlt_Qlt. lia.
Qed.

Lemma mag_cancel (m : positive) (e : Z) :
  mag m e * 2 ^ (- e) == inject_Z (Z.pos m).
Proof.
  unfold mag. rewrite <- Qmult_assoc, Qpow_cancel by reflexivity. ring.
Qed.

(** Rounding a binary64 value gives it back. *)
Lemma round_mag_exact (neg : bool) (m : positive) (e : Z) :
  is_binary64 (Finite neg m e) = true ->
  round_mag neg (mag m e) = Finite neg m e.
Proof.
  intros Hc. cbn [is_binary64] in Hc.
  assert (He : rexp (mag m e) = e /\ (Z.pos m < 2 ^ 53)%Z /\ (e <= 971)%Z).
  { apply orb_true_iff in Hc as [Hc|Hc].
    - apply andb_true_iff in Hc as [Hc H4]. apply andb_true_iff in Hc as [Hc H3].
      apply andb_true_iff in Hc as [H1 H2].
      apply Z.leb_le in H1, H3, H4. apply Z.ltb_lt in H2.
      split; [|split; assumption].
      assert (HE : ilog2 (mag m e) = (52 + e)%Z).
      { apply ilog2_unique; unfold mag.
        - rewrite Qpow_add by reflexivity.
          apply Qmult_le_compat_r; [|apply Qlt_le_weak, Qpow_pos; reflexivity].
          rewrite <- pow2_inject by lia. now rewrite <- Zle_Qle.
        - replace (52 + e + 1)%Z with (53 + e)%Z by lia.
          rewrite Qpow_add by reflexivity.
          apply Qmult_lt_compat_r; [apply Qpow_pos; reflexivity|].
          rewrite <- pow2_inject by lia. now rewrite <- Zlt_Qlt. }
      unfold rexp. lia.
    - apply andb_true_iff in Hc as [H1 H2].
      apply Z.ltb_lt in H1. apply Z.eqb_eq in H2. subst e.
      split; [|split; lia].
      assert (HE : (ilog2 (mag m (-1074)) < 52 + -1074)%Z).
      { apply ilog2_lt; [apply mag_pos|]. unfold mag.
        rewrite Qpow_add by reflexivity.
        apply Qmult_lt_compat_r; [apply Qpow_pos; reflexivity|].
        rewrite <- pow2_inject by lia. now rewrite <- Zlt_Qlt. }
      unfold rexp. lia. }
  destruct He as (He & Hm & He').
  rewrite (round_mag_unfold neg _ (mag_pos m e)). cbv zeta.
  assert (Ht : rint (mag m e) = Z.pos m).
  { unfold rint. rewrite He. rewrite (round_half_even_proper _ _ (mag_cancel m e)).
    apply round_half_even_Z. }
  rewrite Ht, He.
  destruct (Z.eqb_spec (Z.pos m) (2 ^ 53)) as [H|H]; [lia|].
  destruct (Z.gtb_spec e 971) as [H'|H']; [lia|].
  reflexivity.
Qed.

(** In the normal range the result is finite. *)
Lemma round_mag_finite (neg : bool) (q : Q) :
  2 ^ (-1022) <= q -> q < 2 ^ 1023 ->
  exists m e, round_mag neg q = Finite neg m e.
Proof.
  intros Hlo Hhi.
  assert (Hq : 0 < q).
  { eapply Qlt_le_trans; [|exact Hlo]. reflexivity. }
  pose proof (round_mag_below neg q 1023 Hq Hhi ltac:(lia)) as Hb.
  destruct (round_mag neg q) as [|s|s|s m e] eqn:Hr; try contradiction.
  - exfalso. rewrite (round_mag_unfold neg q Hq) in Hr. cbv zeta in Hr.
    destruct (Z.eqb_spec (rint q) 0) as [H0|H0];
      [|destruct (_ >? 971)%Z; discriminate].
    pose proof (ilog2_ge q (-1022) Hlo) as HE.
    assert (He : rexp q = (ilog2 q - 52)%Z) by (unfold rexp; lia).
    destruct (ilog2_spec q Hq) as [Hlo' _].
    assert (Hr1 : (1 <= rint q)%Z); [|lia].
    apply round_half_even_ge.
    apply (Qmult_le_r _ _ (2 ^ rexp q)); [apply Qpow_pos; reflexivity|].
    rewrite <- Qmult_assoc, (Qmult_comm (2 ^ (- rexp q))), Qpow_cancel by reflexivity.
    rewrite Qmult_1_r. change (inject_Z 1) with 1. rewrite Qmult_1_l.
    eapply Qle_trans; [|exact Hlo']. apply pow2_mono. lia.
  - destruct Hb as [-> _]. eauto.
Qed.

(** ** Small values *)

Lemma Qfloor_unit (q : Q) : 0 <= q -> q < 1 -> Qfloor q = 0%Z.
Proof.
  intros H0 H1.
  pose proof (Qfloor_le q) as Hlo. pose proof (Qlt_floor q) as Hhi.
  assert (Ha : inject_Z (Qfloor q) < inject_Z 1) by (change (inject_Z 1) with 1; lra).
  assert (Hb : inject_Z (-1) < inject_Z (Qfloor q)).
  { rewrite inject_Z_plus in Hhi. change (inject_Z 1) with 1 in Hhi.
    change (inject_Z (-1)) with (-1). lra. }
  rewrite <- Zlt_Qlt in Ha, Hb. lia.
Qed.

(** The floor of a quotient that is below one half is zero. *)
Lemma Math_floor_div_small (m : positive) (e : Z) (mc : positive) (ec : Z) :
  mag m e < 1 -> 2 <= mag mc ec ->
  Math_floor (div (Finite false m e) (Finite false mc ec)) = Zero false.
Proof.
  intros Hx Hc. cbn [div xorb].
  pose proof (mag_pos m e) as Hm. pose proof (mag_pos mc ec) as Hmc.
  assert (Hq : 0 < mag m e / mag mc ec).
  { apply Qlt_shift_div_l; [exact Hmc | lra]. }
  assert (Hhalf : mag m e / mag mc ec < 2 ^ (-1)).
  { apply Qlt_shift_div_r; [exact Hmc|]. change (2 ^ (-1)) with (1 # 2).
    lra. }
  pose proof (round_mag_below false _ (-1) Hq Hhalf ltac:(lia)) as Hb.
  destruct (round_mag false (mag m e / mag mc ec)) as [|s|s|s m' e'];
    try contradiction.
  - now subst s.
  - destruct Hb as [-> Hle]. change (2 ^ (-1)) with (1 # 2) in Hle.
    unfold Math_floor. cbn [to_Q].
    rewrite (Qfloor_unit (mag m' e'));
      [reflexivity | apply Qlt_le_weak, mag_pos | lra].
Qed.

(** The remainder of a binary64 value by a larger one is the value. *)
Lemma rem_small (m : positive) (e : Z) (mc : positive) (ec : Z) (sc : bool) :
  is_binary64 (Finite false m e) = true ->
  mag m e < mag mc ec ->
  rem (Finite false m e) (Finite sc mc ec) = Finite false m e.
Proof.
  intros Hc Hlt. cbn [rem].
  pose proof (mag_pos m e) as Hm. pose proof (mag_pos mc ec) as Hmc.
  rewrite (Qfloor_unit (mag m e / mag mc ec)).
  - unfold signed.
    assert (Heq : mag m e - mag mc ec * inject_Z 0 == mag m e).
    { change (inject_Z 0) with 0. ring. }
    destruct (Qcompare_spec (mag m e - mag mc ec * inject_Z 0) 0) as [H|H|H];
      [lra | lra |].
    rewrite (round_mag_proper false false eq_refl _ _ Heq).
    now apply round_mag_exact.
  - apply Qlt_le_weak, Qlt_shift_div_l; [exact Hmc | lra].
  - apply Qlt_shift_div_r; [exact Hmc | lra].
Qed.

Lemma Math_floor_small (m : positive) (e : Z) :
  mag m e < 1 -> Math_floor (Finite false m e) = Zero false.
Proof.
  intros H. unfold Math_floor. cbn [to_Q].
  rewrite (Qfloor_unit (mag m e)); [reflexivity | apply Qlt_le_weak, mag_pos | exact H].
Qed.

(** ** Wait times under a minute *)

Lemma under_a_minute_cases (min : number) :
  le (of_Z 0) min = true -> lt min (of_Z 1) = true ->
  (exists s, min = Zero s) \/ (exists m e, min = Finite false m e /\ mag m e < 1).
Proof.
  intros Hle Hlt. destruct min as [|s|s|s m e].
  - discriminate.
  - destruct s; discriminate.
  - eauto.
  - right. exists m, e.
    assert (H1 : to_Q (of_Z 1) == 1) by reflexivity.
    unfold le, lt in *. change (of_Z 0) with (Zero false) in Hle.
    change (of_Z 1) with (Finite false 4503599627370496 (-52)) in *.
    cbn [cmp] in Hle, Hlt.
    pose proof (mag_pos m e) as Hm.
    destruct s.
    + exfalso. cbn [to_Q] in Hle.
      destruct (Qcompare_spec 0 (- mag m e)) as [H|H|H]; try discriminate; lra.
    + split; [reflexivity|]. cbn [to_Q] in Hlt.
      destruct (Qcompare_spec (mag m e) (mag 4503599627370496 (-52)))
        as [H|H|H]; try discriminate.
      change (mag 4503599627370496 (-52)) with (4503599627370496 # 4503599627370496) in H.
      assert (Hone : (4503599627370496 # 4503599627370496) == 1) by reflexivity.
      rewrite Hone in H. exact H.
Qed.

Section UnderAMinute.

Variables (m : positive) (e : Z) (strHour strMin strSec : string).
Hypothesis Hbin : is_binary64 (Finite false m e) = true.
Hypothesis Hlt : mag m e < 1.

Let min := Finite false m e.

Lemma under_a_minute_floor_div (c : Z) (mc : positive) (ec : Z) :
  of_Z c = Finite false mc ec -> 2 <= mag mc ec ->
  Math_floor (div min (of_Z c)) = Zero false.
Proof using Hlt.
  intros -> Hc. now apply Math_floor_div_small.
Qed.

Lemma under_a_minute_rem (c : Z) (mc : positive) (ec : Z) :
  of_Z c = Finite false mc ec -> 1 <= mag mc ec ->
  rem min (of_Z c) = min.
Proof using Hbin Hlt.
  intros -> Hc. apply rem_small; [exact Hbin | lra].
Qed.

Lemma parseWaitTime_Finite_under_a_minute :
  let seconds := div (mul (Math_round (mul min (of_Z 100))) (of_Z 3)) (of_Z 5) in
  parseWaitTime min strHour strMin strSec =
    if gt seconds (of_Z 1)
    then Number_toString (Math_ceil seconds) ++ strSec else "".
Proof using Hbin Hlt.
  intros seconds. unfold parseWaitTime.
  rewrite (under_a_minute_floor_div 10080 _ _ eq_refl) by discriminate.
  cbn [ToBoolean].
  rewrite (under_a_minute_rem 10080 _ _ eq_refl) by discriminate.
  rewrite (under_a_minute_floor_div 1440 _ _ eq_refl) by discriminate.
  cbn [ToBoolean].
  rewrite (under_a_minute_rem 1440 _ _ eq_refl) by discriminate.
  rewrite (under_a_minute_floor_div 60 _ _ eq_refl) by discriminate.
  cbn [ToBoolean negb andb].
  rewrite (under_a_minute_rem 60 _ _ eq_refl) by discriminate.
  unfold min at 1. rewrite (Math_floor_small m e Hlt).
  change (ge (Zero false) (of_Z 1)) with false.
  cbn [negb andb].
  rewrite (under_a_minute_rem 1 _ _ eq_refl) by discriminate.
  fold seconds. destruct (gt seconds (of_Z 1)); reflexivity.
Qed.

End UnderAMinute.

(** ** Decimal numerals *)

Local Open Scope Z_scope.

Lemma digits_aux_S (f : nat) (n : Z) (acc : string) :
  digits_aux (S f) n acc =
    if n <? 10 then String (digit_char (n mod 10)) acc
    else digits_aux f (n / 10) (String (digit_char (n mod 10)) acc).
Proof. reflexivity. Qed.

Lemma digits_aux_enough (f1 f2 : nat) (n : Z) (acc : string) :
  0 <= n < 10 ^ Z.of_nat (S f1) -> n < 10 ^ Z.of_nat (S f2) ->
  digits_aux (S f1) n acc = digits_aux (S f2) n acc.
Proof.
  revert f2 n acc. induction f1 as [|f1 IH]; intros f2 n acc H1 H2.
  - change (10 ^ Z.of_nat 1) with 10 in H1. rewrite !digits_aux_S.
    destruct (Z.ltb_spec n 10); [reflexivity | lia].
  - rewrite (digits_aux_S (S f1)), (digits_aux_S f2).
    destruct (Z.ltb_spec n 10) as [Hlt|Hge]; [reflexivity|].
    destruct f2 as [|f2].
    + change (10 ^ Z.of_nat 1) with 10 in H2. lia.
    + assert (Hdiv : forall f : nat, n < 10 ^ Z.of_nat (S (S f)) ->
                                     n / 10 < 10 ^ Z.of_nat (S f)).
      { intros f Hf. apply Z.div_lt_upper_bound; [lia|].
        rewrite (Nat2Z.inj_succ (S f)), Z.pow_succ_r in Hf by lia. exact Hf. }
      apply IH; [split; [apply Z.div_pos; lia | apply Hdiv; lia] | apply Hdiv; lia].
Qed.

Lemma lt_pow10_log2 (n : Z) : 0 <= n -> n < 10 ^ Z.of_nat (S (Z.to_nat (Z.log2 n))).
Proof.
  intros Hn. rewrite Nat2Z.inj_succ, Z2Nat.id by apply Z.log2_nonneg.
  destruct (Z.eq_dec n 0) as [->|Hnz]; [reflexivity|].
  destruct (Z.log2_spec n) as [_ Hhi]; [lia|].
  eapply Z.lt_le_trans; [exact Hhi|].
  apply Z.pow_le_mono_l. pose proof (Z.log2_nonneg n). lia.
Qed.

Lemma digits_small (n : Z) : 0 <= n < 10 -> digits n = String (digit_char n) "".
Proof.
  intros Hn. unfold digits. rewrite digits_aux_S.
  destruct (Z.ltb_spec n 10); [|lia]. now rewrite Z.mod_small by lia.
Qed.

Lemma digits_step (n : Z) :
  10 <= n -> digits n = digits (n / 10) ++ String (digit_char (n mod 10)) "".
Proof.
  intros Hn. unfold digits at 1. rewrite digits_aux_S.
  destruct (Z.ltb_spec n 10); [lia|].
  rewrite digits_aux_acc. f_equal.
  assert (Hpos : 0 <= n / 10) by (apply Z.div_pos; lia).
  pose proof (lt_pow10_log2 n ltac:(lia)) as Hfuel.
  pose proof (lt_pow10_log2 (n / 10) Hpos) as Hfuel'.
  destruct (Z.to_nat (Z.log2 n)) as [|L] eqn:HL.
  - change (10 ^ Z.of_nat 1) with 10 in Hfuel. lia.
  - unfold digits. apply digits_aux_enough; [|exact Hfuel'].
    split; [exact Hpos|]. apply Z.div_lt_upper_bound; [lia|].
    rewrite (Nat2Z.inj_succ (S L)), Z.pow_succ_r in Hfuel by lia. exact Hfuel.
Qed.

(** Induction along the numeral. *)
Lemma digits_ind (P : Z -> Prop) :
  (forall n, 0 <= n < 10 -> P n) ->
  (forall n, 10 <= n -> P (n / 10) -> P n) ->
  forall n, 0 <= n -> P n.
Proof.
  intros Hsmall Hstep n Hn. pattern n. apply Zlt_0_ind; [|exact Hn].
  intros x IH Hx. destruct (Z.lt_ge_cases x 10) as [Hlt|Hge].
  - apply Hsmall. lia.
  - apply Hstep; [exact Hge|]. apply IH. split; [apply Z.div_pos; lia|].
    apply Z.div_lt; lia.
Qed.

Lemma length_append (a b : string) :
  String.length (a ++ b) = (String.length a + String.length b)%nat.
Proof.
  induction a as [|c a IH]; [reflexivity|].
  rewrite append_cons. cbn [String.length]. now rewrite IH.
Qed.

Lemma ndigits_small (n : Z) : 0 <= n < 10 -> ndigits n = 1.
Proof. intros H. unfold ndigits. now rewrite digits_small. Qed.

Lemma ndigits_step (n : Z) : 10 <= n -> ndigits n = ndigits (n / 10) + 1.
Proof.
  intros H. unfold ndigits. rewrite digits_step, length_append by exact H.
  cbn [String.length]. lia.
Qed.

Lemma ndigits_pos (n : Z) : 1 <= ndigits n.
Proof.
  unfold ndigits. pose proof (digits_nonempty n).
  destruct (digits n); [contradiction | cbn [String.length]; lia].
Qed.

(** A numeral of [k] digits denotes a number in [10^(k-1), 10^k). *)
Lemma ndigits_spec (n : Z) :
  1 <= n -> 10 ^ (ndigits n - 1) <= n < 10 ^ ndigits n.
Proof.
  intros Hn. assert (H0 : 0 <= n) by lia. revert Hn. pattern n.
  apply digits_ind; [| |exact H0]; clear n H0.
  - intros n Hn H1. rewrite ndigits_small by exact Hn.
    change (10 ^ (1 - 1)) with 1. change (10 ^ 1) with 10. lia.
  - intros n Hn IH _. rewrite ndigits_step by exact Hn.
    pose proof (ndigits_pos (n / 10)) as Hk.
    assert (H1 : 1 <= n / 10) by (apply Z.div_le_lower_bound; lia).
    specialize (IH H1).
    replace (ndigits (n / 10) + 1 - 1) with (Z.succ (ndigits (n / 10) - 1)) by lia.
    replace (ndigits (n / 10) + 1) with (Z.succ (ndigits (n / 10))) by lia.
    rewrite !Z.pow_succ_r by lia.
    pose proof (Z.div_mod n 10 ltac:(lia)) as Hdm.
    pose proof (Z.mod_pos_bound n 10 ltac:(lia)) as Hmod.
    lia.
Qed.

(** ** Reading a numeral back *)

Lemma digit_value_digit_char (d : Z) :
  0 <= d < 10 -> digit_value 10 (digit_char d) = Some d.
Proof.
  intros H.
  assert (Hd : d = 0 \/ d = 1 \/ d = 2 \/ d = 3 \/ d = 4 \/ d = 5 \/ d = 6
               \/ d = 7 \/ d = 8 \/ d = 9) by lia.
  repeat (destruct Hd as [->|Hd]; [reflexivity|]). now subst d.
Qed.

Lemma parse_digits_digits (n : Z) :
  0 <= n -> forall (rest : string) (acc : option Z),
  parse_digits 10 (digits n ++ rest) acc =
    parse_digits 10 rest (Some (10 ^ ndigits n * acc_value acc + n)).
Proof.
  intros Hn. pattern n. apply digits_ind; [| |exact Hn]; clear n Hn.
  - intros n Hn rest acc. rewrite digits_small, ndigits_small by exact Hn.
    rewrite append_cons, append_nil_l. cbn [parse_digits].
    rewrite digit_value_digit_char by exact Hn. reflexivity.
  - intros n Hn IH rest acc. rewrite digits_step, ndigits_step by exact Hn.
    rewrite append_assoc, append_cons, append_nil_l, IH.
    cbn [parse_digits].
    rewrite digit_value_digit_char by (apply Z.mod_pos_bound; lia).
    cbn [acc_value]. do 2 f_equal.
    pose proof (ndigits_pos (n / 10)) as Hk.
    replace (ndigits (n / 10) + 1) with (Z.succ (ndigits (n / 10))) by lia.
    rewrite Z.pow_succ_r by lia.
    pose proof (Z.div_mod n 10 ltac:(lia)) as Hdm. lia.
Qed.

Lemma parse_digits_numeral (n : Z) :
  0 <= n -> parse_digits 10 (digits n) None = Some n.
Proof.
  intros Hn. rewrite <- (append_nil_r (digits n)).
  rewrite parse_digits_digits by exact Hn. cbn [parse_digits acc_value].
  f_equal. lia.
Qed.

Lemma all_digits_append (a b : string) :
  all_digits (a ++ b) = all_digits a && all_digits b.
Proof.
  induction a as [|c a IH]; [reflexivity|].
  rewrite append_cons. cbn [all_digits].
  destruct (digit_value 10 c); [exact IH | reflexivity].
Qed.

Lemma all_digits_numeral (n : Z) : 0 <= n -> all_digits (digits n) = true.
Proof.
  intros Hn. pattern n. apply digits_ind; [| |exact Hn]; clear n Hn.
  - intros n Hn. rewrite digits_small by exact Hn. cbn [all_digits].
    now rewrite digit_value_digit_char.
  - intros n Hn IH. rewrite digits_step, all_digits_append, IH by exact Hn.
    cbn [all_digits andb].
    now rewrite digit_value_digit_char by (apply Z.mod_pos_bound; lia).
Qed.

(** A numeral starts with a digit. *)
Lemma digits_head (n : Z) :
  0 <= n -> exists d rest, 0 <= d < 10 /\ digits n = String (digit_char d) rest.
Proof.
  intros Hn. pattern n. apply digits_ind; [| |exact Hn]; clear n Hn.
  - intros n Hn. exists n, "". split; [exact Hn | now apply digits_small].
  - intros n Hn (d & rest & Hd & IH). rewrite digits_step, IH by exact Hn.
    rewrite append_cons. eauto.
Qed.

(** ** The big integer of a numeral *)

Lemma char_value_digit (c : ascii) (d : Z) :
  digit_value 10 c = Some d ->
  BN.char_value c = d /\ 0 <= d < 10 /\ is_white_space c = false.
Proof.
  destruct c as [b0 b1 b2 b3 b4 b5 b6 b7].
  destruct b0, b1, b2, b3, b4, b5, b6, b7; intros H;
    try discriminate H; injection H as <-;
    repeat split; (reflexivity || discriminate).
Qed.

Lemma parseBase_append (a b : string) (r : Z) :
  BN.parseBase (a ++ b) r = BN.parseBase b (BN.parseBase a r).
Proof.
  revert r. induction a as [|c a IH]; intros r; [reflexivity|].
  rewrite append_cons. cbn [BN.parseBase]. apply IH.
Qed.

Lemma parseBase_shift (s : string) (r : Z) :
  BN.parseBase s r =
    r * 10 ^ Z.of_nat (String.length s) + BN.parseBase s 0.
Proof.
  revert r. induction s as [|c s IH]; intros r.
  - cbn [BN.parseBase String.length]. change (10 ^ Z.of_nat 0) with 1. lia.
  - cbn [BN.parseBase String.length].
    rewrite (IH (r * 10 + BN.char_value c)), (IH (0 * 10 + BN.char_value c)).
    rewrite Nat2Z.inj_succ, Z.pow_succ_r by lia. ring.
Qed.

Lemma parseBase_digits_range (s : string) :
  all_digits s = true ->
  0 <= BN.parseBase s 0 < 10 ^ Z.of_nat (String.length s).
Proof.
  induction s as [|c s IH]; intros H.
  - cbn. lia.
  - cbn [all_digits] in H. destruct (digit_value 10 c) as [d|] eqn:Hd;
      [|discriminate].
    destruct (char_value_digit c d Hd) as (Hc & Hr & _).
    specialize (IH H). cbn [BN.parseBase String.length].
    rewrite parseBase_shift, Hc, Nat2Z.inj_succ, Z.pow_succ_r by lia. nia.
Qed.

Lemma parse_digits_parseBase (s : string) (acc : option Z) :
  all_digits s = true ->
  acc_value (parse_digits 10 s acc) = BN.parseBase s (acc_value acc).
Proof.
  revert acc. induction s as [|c s IH]; intros acc H; [reflexivity|].
  cbn [all_digits] in H. cbn [parse_digits BN.parseBase].
  destruct (digit_value 10 c) as [d|] eqn:Hd; [|discriminate].
  destruct (char_value_digit c d Hd) as (Hc & _ & _).
  rewrite (IH _ H), Hc. cbn [acc_value]. f_equal.
  destruct acc; cbn [acc_value]; lia.
Qed.

Lemma string_take_drop (n : nat) (s : string) :
  string_take n s ++ string_drop n s = s.
Proof.
  revert s. induction n as [|n IH]; intros [|c s]; try reflexivity.
  cbn [string_take string_drop]. now rewrite append_cons, IH.
Qed.

Lemma length_string_take (n : nat) (s : string) :
  (n <= String.length s)%nat -> String.length (string_take n s) = n.
Proof.
  revert s. induction n as [|n IH]; intros [|c s] H; try reflexivity.
  - cbn in H. lia.
  - cbn [string_take String.length] in *. rewrite IH; lia.
Qed.

Lemma length_string_drop (n : nat) (s : string) :
  String.length (string_drop n s) = (String.length s - n)%nat.
Proof.
  revert s. induction n as [|n IH]; intros [|c s]; try reflexivity.
  cbn [string_drop String.length]. now rewrite IH.
Qed.

(** A limb whose value is in range is added exactly. *)
Lemma add_limb_normal (v word pow : Z) :
  0 <= word < 67108864 ->
  BN.add_limb (BN.Int v) word pow = BN.Int (v * pow + word).
Proof.
  intros Hw. unfold BN.add_limb.
  pose proof (Z.mod_pos_bound (v * pow) 67108864 ltac:(lia)) as Hm.
  destruct (Z.ltb_spec (v * pow mod 67108864 + word) 67108864).
  - destruct (Z.leb_spec 0 (v * pow mod 67108864 + word)); [reflexivity | lia].
  - destruct (Z.ltb_spec (v * pow mod 67108864 + word - 67108864) 67108864);
      [reflexivity | lia].
Qed.

(** The limbs of a string of digits add up to the integer it
    denotes. *)
Lemma parse_limbs_digits (k : nat) (s : string) (v : Z) :
  all_digits s = true ->
  (7 * k <= String.length s < 7 * k + 7)%nat ->
  BN.parse_limbs k s (BN.Int v) = BN.Int (BN.parseBase s v).
Proof.
  revert s v. induction k as [|k IH]; intros s v Hall Hlen.
  - cbn [BN.parse_limbs]. destruct (String.eqb_spec s "") as [->|Hne];
      [reflexivity|].
    pose proof (parseBase_digits_range s Hall) as Hr.
    assert (Hp : 10 ^ Z.of_nat (String.length s) <= 10 ^ 6)
      by (apply Z.pow_le_mono_r; lia).
    change (10 ^ 6) with 1000000 in Hp.
    rewrite add_limb_normal by lia. now rewrite <- parseBase_shift.
  - cbn [BN.parse_limbs].
    pose proof (string_take_drop 7 s) as Hs.
    pose proof (length_string_take 7 s ltac:(lia)) as Ht.
    pose proof (length_string_drop 7 s) as Hd.
    assert (Hall' : all_digits (string_take 7 s) = true
                    /\ all_digits (string_drop 7 s) = true).
    { apply andb_true_iff. now rewrite <- all_digits_append, Hs. }
    destruct Hall' as [Ha Hb].
    pose proof (parseBase_digits_range _ Ha) as Hr. rewrite Ht in Hr.
    change (10 ^ Z.of_nat 7) with 10000000 in Hr.
    rewrite add_limb_normal by lia.
    rewrite IH by (assumption || lia).
    f_equal.
    transitivity (BN.parseBase (string_take 7 s ++ string_drop 7 s) v);
      [|now rewrite Hs].
    rewrite parseBase_append.
    f_equal. rewrite (parseBase_shift (string_take 7 s) v), Ht. reflexivity.
Qed.

Lemma remove_white_space_digits (s : string) :
  all_digits s = true -> remove_white_space s = s.
Proof.
  induction s as [|c s IH]; intros H; [reflexivity|].
  cbn [all_digits] in H. cbn [remove_white_space].
  destruct (digit_value 10 c) as [d|] eqn:Hd; [|discriminate].
  destruct (char_value_digit c d Hd) as (_ & _ & ->). now rewrite IH.
Qed.

(** The big integer of a numeral is the number. *)
Lemma BN_of_string_numeral (n : Z) :
  0 <= n -> BN.of_string (digits n) = BN.Int n.
Proof.
  intros Hn. destruct (digits_head n Hn) as (d & rest & Hd & Hdigits).
  pose proof (parse_digits_numeral n Hn) as Hparse.
  pose proof (all_digits_numeral n Hn) as Hall.
  assert (Hval : BN.parseBase (digits n) 0 = n).
  { pose proof (parse_digits_parseBase (digits n) None Hall) as H.
    rewrite Hparse in H. symmetry. exact H. }
  assert (Hlimbs :
    BN.parse_limbs (Nat.div (String.length (digits n)) 7) (digits n) (BN.Int 0)
    = BN.Int n).
  { rewrite parse_limbs_digits, Hval; [reflexivity | exact Hall |].
    pose proof (Nat.div_mod_eq (String.length (digits n)) 7) as Hdm.
    pose proof (Nat.mod_upper_bound (String.length (digits n)) 7) as Hub.
    lia. }
  unfold BN.of_string. rewrite (remove_white_space_digits _ Hall).
  rewrite Hdigits in *.
  assert (Hd' : d = 0 \/ d = 1 \/ d = 2 \/ d = 3 \/ d = 4 \/ d = 5 \/ d = 6
               \/ d = 7 \/ d = 8 \/ d = 9) by lia.
  repeat (destruct Hd' as [->|Hd'];
    [change (digit_char _) with "0"%char in *||
     change (digit_char _) with "1"%char in *||
     change (digit_char _) with "2"%char in *||
     change (digit_char _) with "3"%char in *||
     change (digit_char _) with "4"%char in *||
     change (digit_char _) with "5"%char in *||
     change (digit_char _) with "6"%char in *||
     change (digit_char _) with "7"%char in *||
     change (digit_char _) with "8"%char in *||
     change (digit_char _) with "9"%char in *;
     cbv iota beta; cbn [String.eqb Ascii.eqb Bool.eqb]; exact Hlimbs|]).
  subst d.
  change (digit_char _) with "9"%char in *.
  cbv iota beta; cbn [String.eqb Ascii.eqb Bool.eqb]; exact Hlimbs.
Qed.

Local Open Scope Z_scope.

(** ** The decimal exponent *)

Local Open Scope Q_scope.

Lemma decade_spec (q : Q) :
  0 < q -> 10 ^ (decade q - 1) <= q /\ q < 10 ^ decade q.
Proof.
  intros Hq. unfold decade. destruct (Qle_bool 1 q) eqn:H1.
  - apply Qle_bool_iff in H1.
    assert (Hf : (1 <= Qfloor q)%Z).
    { change 1%Z with (Qfloor (inject_Z 1)). now apply Qfloor_resp_le. }
    destruct (ndigits_spec (Qfloor q) Hf) as [Hlo Hhi].
    pose proof (ndigits_pos (Qfloor q)) as Hk.
    split.
    + rewrite <- pow10_inject by lia.
      eapply Qle_trans; [|apply Qfloor_le]. now rewrite <- Zle_Qle.
    + eapply Qlt_le_trans; [apply Qlt_floor|].
      rewrite <- pow10_inject by lia. rewrite <- Zle_Qle. lia.
  - assert (Hlt : q < 1).
    { apply Qnot_le_lt. intros H. apply Qle_bool_iff in H. congruence. }
    assert (Hinv : 1 < / q).
    { apply Qlt_shift_inv_l; [exact Hq | now rewrite Qmult_1_l]. }
    set (c := Qceiling (/ q)).
    assert (Hc : (2 <= c)%Z).
    { assert (inject_Z 1 < inject_Z c).
      { eapply Qlt_le_trans; [exact Hinv | apply Qle_ceiling]. }
      rewrite <- Zlt_Qlt in H. lia. }
    destruct (ndigits_spec (c - 1) ltac:(lia)) as [Hlo Hhi].
    pose proof (ndigits_pos (c - 1)) as Hk.
    set (J := ndigits (c - 1)) in *.
    assert (Hnz : ~ q == 0) by (intros H; rewrite H in Hq; discriminate).
    split.
    + replace (1 - J - 1)%Z with (- J)%Z by lia. rewrite Qpower_opp.
      apply Qle_shift_inv_r; [apply Qpow_pos; reflexivity|].
      assert (H : / q <= 10 ^ J).
      { eapply Qle_trans; [apply Qle_ceiling|]. fold c.
        rewrite <- pow10_inject by lia. rewrite <- Zle_Qle. lia. }
      apply (Qmult_le_r _ _ q) in H; [|exact Hq].
      rewrite (Qmult_comm (/ q)), Qmult_inv_r in H by exact Hnz.
      lra.
    + replace (1 - J)%Z with (- (J - 1))%Z by lia. rewrite Qpower_opp.
      apply Qlt_shift_inv_l; [apply Qpow_pos; reflexivity|].
      assert (H : 10 ^ (J - 1) < / q).
      { eapply Qle_lt_trans; [|apply Qceiling_lt]. fold c.
        rewrite <- pow10_inject by lia. now rewrite <- Zle_Qle. }
      apply (Qmult_lt_r _ _ q) in H; [|exact Hq].
      rewrite (Qmult_comm (/ q)), Qmult_inv_r in H by exact Hnz.
      lra.
Qed.

Lemma dec_pos (t p : Z) : (1 <= t)%Z -> 0 < dec t p.
Proof.
  intros Ht. unfold dec. apply Qmult_lt_0_compat; [|apply Qpow_pos; reflexivity].
  change 0 with (inject_Z 0). rewrite <- Zlt_Qlt. lia.
Qed.

(** Moving powers of ten between the digits and the exponent. *)
Lemma dec_shift (t p j : Z) :
  (0 <= j)%Z -> dec (t * 10 ^ j) (p - j) == dec t p.
Proof.
  intros Hj. unfold dec. rewrite inject_Z_mult, pow10_inject by exact Hj.
  rewrite <- Qmult_assoc, <- Qpow_add by reflexivity.
  now replace (j + (p - j))%Z with p by lia.
Qed.

Lemma dec_inj (t t' p : Z) : dec t p == dec t' p -> t = t'.
Proof.
  unfold dec. intros H. apply inject_Z_injective.
  apply (Qmult_inj_r _ _ (10 ^ p)); [|exact H].
  intros H0. pose proof (Qpow_pos 10 p ten_pos) as Hp. rewrite H0 in Hp. discriminate.
Qed.

Lemma number_eqb_eq (x y : number) : number_eqb x y = true -> x = y.
Proof.
  destruct x as [|s|s|s m e], y as [|s'|s'|s' m' e']; cbn [number_eqb];
    try discriminate; try reflexivity.
  - intros H. apply Bool.eqb_prop in H. now subst.
  - intros H. apply Bool.eqb_prop in H. now subst.
  - intros H. apply andb_true_iff in H as [H H3]. apply andb_true_iff in H as [H1 H2].
    apply Bool.eqb_prop in H1. apply Pos.eqb_eq in H2. apply Z.eqb_eq in H3.
    now subst.
Qed.

Lemma number_eqb_refl (x : number) : number_eqb x x = true.
Proof.
  destruct x as [|s|s|s m e]; cbn [number_eqb]; try reflexivity.
  - now destruct s.
  - now destruct s.
  - rewrite Pos.eqb_refl, Z.eqb_refl. now destruct s.
Qed.

Lemma of_Q_pos (q : Q) : 0 < q -> of_Q q = round_mag false q.
Proof.
  intros Hq. unfold of_Q.
  destruct (Qcompare_spec q 0) as [H|H|H]; [|lra|reflexivity].
  rewrite H in Hq. discriminate.
Qed.

(** ** The shortest decimal of a rounded decimal

    [s0 * 10^z] is a decimal of at most fifteen digits that does not
    end in zero, and [Finite false m e] is the Number it rounds to.
    The search gives back [s0] and [z]. *)

Section Shortest.

Variables (s0 z : Z) (m : positive) (e : Z).
Hypothesis Hs0 : (1 <= s0 < 10 ^ 15)%Z.
Hypothesis Hmod : (s0 mod 10 <> 0)%Z.
Hypothesis Hz : (-1 <= z)%Z.
Hypothesis Hx : round_mag false (dec s0 z) = Finite false m e.

Let d : Q := dec s0 z.
Let q : Q := mag m e.
Let n : Z := decade q.
Let eps : Q := 1 # 9007199254740992.
Let A : Q := 10 ^ (n - 15).

Lemma decimal_bounds : 10 ^ z <= d /\ d <= (999999999999999 # 1) * 10 ^ z.
Proof using All.
  pose proof (Qpow_pos 10 z ten_pos) as Hp. unfold d, dec. split.
  - rewrite <- (Qmult_1_l (10 ^ z)) at 1.
    apply Qmult_le_compat_r; [|lra].
    change 1 with (inject_Z 1). rewrite <- Zle_Qle. lia.
  - apply Qmult_le_compat_r; [|lra].
    change (999999999999999 # 1) with (inject_Z 999999999999999).
    rewrite <- Zle_Qle. change (10 ^ 15)%Z with 1000000000000000%Z in Hs0. lia.
Qed.

Lemma decimal_ge_tenth : (1 # 10) <= d.
Proof using All.
  destruct decimal_bounds as [Hlo _]. eapply Qle_trans; [|exact Hlo].
  change (1 # 10) with (10 ^ (-1)). now apply pow10_mono.
Qed.

Lemma value_near_decimal : d - d * eps <= q /\ q <= d + d * eps.
Proof using All.
  apply (round_mag_error false d false m e); [|exact Hx].
  eapply Qle_trans; [|apply decimal_ge_tenth]. discriminate.
Qed.

Lemma value_pos : 0 < q.
Proof using All. apply mag_pos. Qed.

Lemma value_decade : 10 ^ (n - 1) <= q /\ q < 10 ^ n.
Proof using All. apply decade_spec, value_pos. Qed.

Lemma decade_unit : 10 ^ n == (1000000000000000 # 1) * A.
Proof using All.
  unfold A. change (1000000000000000 # 1) with (10 ^ 15).
  rewrite <- Qpow_add by reflexivity. now replace (15 + (n - 15))%Z with n by lia.
Qed.

Lemma decade_pred_unit : 10 ^ (n - 1) == (100000000000000 # 1) * A.
Proof using All.
  unfold A. change (100000000000000 # 1) with (10 ^ 14).
  rewrite <- Qpow_add by reflexivity.
  now replace (14 + (n - 15))%Z with (n - 1)%Z by lia.
Qed.

Lemma unit_pos : 0 < A.
Proof using All. apply Qpow_pos. reflexivity. Qed.

Lemma decade_le : (n <= z + 15)%Z.
Proof using All.
  destruct (Z.le_gt_cases n (z + 15)) as [H|H]; [exact H | exfalso].
  destruct value_decade as [Hlo _]. destruct value_near_decimal as [_ Hhi].
  destruct decimal_bounds as [_ Hd].
  assert (Hp : 10 ^ (z + 15) <= 10 ^ (n - 1)) by (apply pow10_mono; lia).
  rewrite Qpow_add in Hp by reflexivity.
  change (10 ^ 15) with (1000000000000000 # 1) in Hp.
  pose proof (Qpow_pos 10 z ten_pos) as Hzp.
  unfold eps in Hhi. lra.
Qed.

Lemma decade_ge : (z <= n)%Z.
Proof using All.
  destruct (Z.le_gt_cases z n) as [H|H]; [exact H | exfalso].
  destruct value_decade as [_ Hhi]. destruct value_near_decimal as [Hlo _].
  destruct decimal_bounds as [Hd _].
  assert (Hp : 10 ^ n <= 10 ^ (z + -1)) by (apply pow10_mono; lia).
  rewrite Qpow_add in Hp by reflexivity.
  change (10 ^ (-1)) with (1 # 10) in Hp.
  pose proof (Qpow_pos 10 z ten_pos) as Hzp.
  unfold eps in Hlo. lra.
Qed.

Lemma value_lt_unit : q < (1000000000000000 # 1) * A.
Proof using All. rewrite <- decade_unit. apply value_decade. Qed.

Lemma value_ge_unit : (100000000000000 # 1) * A <= q.
Proof using All. rewrite <- decade_pred_unit. apply value_decade. Qed.

Lemma decimal_le_twice : d <= 2 * q.
Proof using All.
  destruct value_near_decimal as [Hlo _]. pose proof decimal_ge_tenth. unfold eps in Hlo. lra.
Qed.

Section Level.

Variable k : Z.
Hypothesis Hk : (1 <= k <= 15)%Z.

Let p : Z := (n - k)%Z.
Let lo : Z := Qfloor (q * 10 ^ (- p)).

Lemma level_unit_ge : A <= 10 ^ p.
Proof using All. unfold A, p. apply pow10_mono. lia. Qed.

Lemma level_unit_le : 10 ^ p <= 10 ^ (n - 1).
Proof using All. unfold p. apply pow10_mono. lia. Qed.

Lemma level_floor_spec : inject_Z lo * 10 ^ p <= q /\ q < inject_Z (lo + 1) * 10 ^ p.
Proof using All.
  pose proof (Qpow_pos 10 p ten_pos) as Hp.
  pose proof (Qpow_cancel 10 p ten_pos) as Hc.
  pose proof (Qfloor_le (q * 10 ^ (- p))) as Hlo.
  pose proof (Qlt_floor (q * 10 ^ (- p))) as Hhi. fold lo in Hlo, Hhi.
  assert (Hqq : q * 10 ^ (- p) * 10 ^ p == q).
  { rewrite <- Qmult_assoc, (Qmult_comm (10 ^ (- p))), Hc. ring. }
  split.
  - rewrite <- Hqq. apply Qmult_le_compat_r; [exact Hlo | lra].
  - rewrite <- Hqq at 1. apply Qmult_lt_compat_r; [exact Hp | exact Hhi].
Qed.

Lemma level_floor_ge : (10 ^ (k - 1) <= lo)%Z.
Proof using All.
  unfold lo. rewrite <- (Qfloor_Z (10 ^ (k - 1))). apply Qfloor_resp_le.
  rewrite pow10_inject by lia.
  replace (k - 1)%Z with ((n - 1) + - p)%Z by (unfold p; lia).
  rewrite Qpow_add by reflexivity.
  apply Qmult_le_compat_r; [apply value_decade|].
  apply Qlt_le_weak, Qpow_pos. reflexivity.
Qed.

Lemma level_floor_pos : (1 <= lo)%Z.
Proof using All.
  pose proof level_floor_ge. pose proof (Z.pow_pos_nonneg 10 (k - 1) ltac:(lia) ltac:(lia)).
  lia.
Qed.

(** A candidate lies between a tenth of [q] and twice [q]. *)
Lemma candidate_bounds (t : Z) :
  t = lo \/ t = (lo + 1)%Z ->
  (100000000000000 # 1) * A <= dec t p /\ dec t p <= 2 * q.
Proof using All.
  intros Ht. destruct level_floor_spec as [Hlo Hhi].
  pose proof (Qpow_pos 10 p ten_pos) as Hp.
  pose proof level_unit_le as Hple. destruct value_decade as [Hn1 _].
  assert (Hge : 10 ^ (n - 1) <= inject_Z lo * 10 ^ p).
  { replace (n - 1)%Z with ((k - 1) + p)%Z by (unfold p; lia).
    rewrite Qpow_add by reflexivity.
    apply Qmult_le_compat_r; [|lra].
    rewrite <- pow10_inject by lia. rewrite <- Zle_Qle. apply level_floor_ge. }
  rewrite decade_pred_unit in Hge.
  rewrite inject_Z_plus in Hhi. change (inject_Z 1) with 1 in Hhi.
  unfold dec. destruct Ht as [->| ->].
  - lra.
  - rewrite inject_Z_plus. change (inject_Z 1) with 1. lra.
Qed.

(** A candidate that rounds to the Number is the decimal itself. *)
Lemma candidate_unique (t : Z) :
  t = lo \/ t = (lo + 1)%Z ->
  round_mag false (dec t p) = Finite false m e ->
  dec t p == d.
Proof using All.
  intros Ht Hr. destruct (candidate_bounds t Ht) as [Hclo Hchi].
  pose proof unit_pos as HA. pose proof value_lt_unit as Hq. pose proof decimal_le_twice as Hd.
  destruct value_near_decimal as [Hd1 Hd2].
  assert (Hc : dec t p - dec t p * eps <= q /\ q <= dec t p + dec t p * eps).
  { apply (round_mag_error false (dec t p) false m e); [|exact Hr].
    apply Qle_trans with ((100000000000000 # 1) * A); [|exact Hclo].
    (* 10^(n-1) is above a hundredth *)
    pose proof decimal_ge_tenth as Hten. destruct value_decade as [_ Hn].
    rewrite decade_unit in Hn. unfold eps in Hd1.
    apply Qle_trans with (1 # 1000); [discriminate | lra]. }
  destruct Hc as [Hc1 Hc2].
  set (g := Z.min p z).
  set (W := (t * 10 ^ (p - g) - s0 * 10 ^ (z - g))%Z).
  assert (HW : dec t p - d == inject_Z W * 10 ^ g).
  { unfold W, d. rewrite <- (dec_shift t p (p - g)) by (unfold g; lia).
    rewrite <- (dec_shift s0 z (z - g)) by (unfold g; lia).
    replace (p - (p - g))%Z with g by lia. replace (z - (z - g))%Z with g by lia.
    unfold dec, Z.sub. rewrite inject_Z_plus, inject_Z_opp. ring. }
  assert (HG : A <= 10 ^ g).
  { unfold A, g. apply pow10_mono. pose proof decade_le. unfold p. lia. }
  pose proof (Qpow_pos 10 g ten_pos) as HGp.
  unfold eps in *.
  destruct (Z.lt_trichotomy W 0) as [Hneg|[H0|Hpos]].
  - exfalso.
    assert (H1 : inject_Z W * 10 ^ g <= (- (1)) * 10 ^ g).
    { apply Qmult_le_compat_r; [|lra].
      change (- (1)) with (inject_Z (-1)). rewrite <- Zle_Qle. lia. }
    lra.
  - rewrite H0 in HW. change (inject_Z 0) with 0 in HW. lra.
  - exfalso.
    assert (H1 : 1 * 10 ^ g <= inject_Z W * 10 ^ g).
    { apply Qmult_le_compat_r; [|lra].
      change 1 with (inject_Z 1). rewrite <- Zle_Qle. lia. }
    lra.
Qed.

(** When the digits of the decimal fit the level, it is a candidate. *)
Lemma candidate_exists :
  (p <= z)%Z ->
  let T := (s0 * 10 ^ (z - p))%Z in
  dec T p == d /\ (T = lo \/ T = (lo + 1)%Z).
Proof using All.
  intros Hp T.
  assert (HT : dec T p == d).
  { unfold T, d. rewrite <- (dec_shift s0 z (z - p)) by lia.
    now replace (z - (z - p))%Z with p by lia. }
  split; [exact HT|].
  destruct level_floor_spec as [Hlo Hhi].
  pose proof unit_pos as HA. pose proof value_lt_unit as Hq. pose proof decimal_le_twice as Hd.
  pose proof level_unit_ge as HP. destruct value_near_decimal as [Hd1 Hd2].
  pose proof (Qpow_pos 10 p ten_pos) as Hpp.
  rewrite <- HT in Hd, Hd1, Hd2. unfold dec in Hd, Hd1, Hd2.
  unfold eps in *.
  assert (H1 : inject_Z lo * 10 ^ p < inject_Z (T + 1) * 10 ^ p).
  { rewrite inject_Z_plus. change (inject_Z 1) with 1. lra. }
  assert (H2 : inject_Z T * 10 ^ p < inject_Z (lo + 2) * 10 ^ p).
  { rewrite inject_Z_plus in Hhi |- *.
    change (inject_Z 1) with 1 in Hhi. change (inject_Z 2) with 2. lra. }
  apply Qmult_lt_r in H1; [|exact Hpp]. apply Qmult_lt_r in H2; [|exact Hpp].
  rewrite <- Zlt_Qlt in H1, H2. lia.
Qed.

(** A level that is too coarse for the digits has no candidate. *)
Lemma candidate_too_coarse (t : Z) : (z < p)%Z -> ~ dec t p == d.
Proof using All.
  intros Hp H. unfold d in H.
  rewrite <- (dec_shift t p (p - z)) in H by lia.
  replace (p - (p - z))%Z with z in H by lia.
  apply dec_inj in H. apply Hmod. rewrite <- H.
  replace (p - z)%Z with (Z.succ (p - z - 1)) by lia.
  rewrite Z.pow_succ_r by lia.
  replace (t * (10 * 10 ^ (p - z - 1)))%Z with (t * 10 ^ (p - z - 1) * 10)%Z by ring.
  apply Z.mod_mul. lia.
Qed.

Lemma roundtrips_candidate (t : Z) :
  t = lo \/ t = (lo + 1)%Z ->
  roundtrips (Finite false m e) t p = true -> dec t p == d.
Proof using All.
  intros Ht Hr. apply candidate_unique; [exact Ht|].
  apply number_eqb_eq in Hr. rewrite of_Q_pos in Hr; [exact Hr|].
  apply dec_pos. pose proof level_floor_pos. lia.
Qed.

Lemma roundtrips_decimal (t : Z) :
  dec t p == d -> roundtrips (Finite false m e) t p = true.
Proof using All.
  intros Ht. unfold roundtrips.
  assert (Hpos : 0 < dec t p).
  { rewrite Ht. eapply Qlt_le_trans; [|apply decimal_ge_tenth]. reflexivity. }
  rewrite of_Q_pos by exact Hpos.
  rewrite (round_mag_proper false false eq_refl _ _ Ht).
  fold d in Hx. rewrite Hx. apply number_eqb_refl.
Qed.

End Level.

(** The level at which the search stops. *)
Let kstar : Z := Z.max 1 (n - z).
Let pstar : Z := (n - kstar)%Z.
Let Tstar : Z := (s0 * 10 ^ (z - pstar))%Z.

Lemma stop_level_range : (1 <= kstar <= 15)%Z.
Proof using All. pose proof decade_le. unfold kstar. lia. Qed.

Lemma shortest_S (fuel : nat) (x : number) (r : Q) (n' k : Z) :
  shortest (S fuel) x r n' k =
    let p := (n' - k)%Z in
    let lo := Qfloor (r * 10 ^ (- p)) in
    match roundtrips x lo p, roundtrips x (lo + 1) p with
    | true, true => (nearer r lo p, p)
    | true, false => (lo, p)
    | false, true => ((lo + 1)%Z, p)
    | false, false => shortest fuel x r n' (k + 1)
    end.
Proof using Type. reflexivity. Qed.

Lemma shortest_level_found (fuel : nat) :
  shortest (S fuel) (Finite false m e) q n kstar = (Tstar, pstar).
Proof using All.
  rewrite shortest_S. cbv zeta. fold pstar.
  set (lo := Qfloor (q * 10 ^ (- pstar))).
  destruct (candidate_exists kstar stop_level_range) as [HT Hcand];
    [unfold kstar; lia|].
  fold pstar in HT, Hcand. fold Tstar in HT, Hcand. fold lo in Hcand.
  assert (Hother : forall t, (t = lo \/ t = (lo + 1)%Z) -> t <> Tstar ->
                             roundtrips (Finite false m e) t pstar = false).
  { intros t Ht Hne.
    destruct (roundtrips (Finite false m e) t pstar) eqn:Hr; [|reflexivity].
    exfalso. apply Hne. apply (dec_inj _ _ pstar). rewrite HT.
    now apply (roundtrips_candidate kstar stop_level_range). }
  pose proof (roundtrips_decimal kstar stop_level_range Tstar HT) as Hok. fold pstar in Hok.
  destruct Hcand as [Hc|Hc].
  - rewrite (Hother (lo + 1)%Z) by (auto; lia).
    rewrite Hc in Hok |- *. now rewrite Hok.
  - rewrite (Hother lo) by (auto; lia).
    rewrite Hc in Hok |- *. now rewrite Hok.
Qed.

Lemma shortest_level_skip (fuel : nat) (k : Z) :
  (1 <= k < kstar)%Z ->
  shortest (S fuel) (Finite false m e) q n k =
  shortest fuel (Finite false m e) q n (k + 1).
Proof using All.
  intros Hk. pose proof stop_level_range as Hks.
  assert (Hk' : (1 <= k <= 15)%Z) by lia.
  assert (Hp : (z < n - k)%Z) by (unfold kstar in Hk; lia).
  rewrite shortest_S. cbv zeta.
  set (lo := Qfloor (q * 10 ^ (- (n - k)))).
  assert (Hnone : forall t, (t = lo \/ t = (lo + 1)%Z) ->
                            roundtrips (Finite false m e) t (n - k) = false).
  { intros t Ht.
    destruct (roundtrips (Finite false m e) t (n - k)) eqn:Hr; [|reflexivity].
    exfalso. apply (candidate_too_coarse k Hk' t Hp).
    now apply (roundtrips_candidate k Hk'). }
  rewrite (Hnone lo), (Hnone (lo + 1)%Z) by auto. reflexivity.
Qed.

Lemma shortest_search (j fuel : nat) (k : Z) :
  (1 <= k)%Z -> (k + Z.of_nat j = kstar)%Z ->
  shortest (S (j + fuel)) (Finite false m e) q n k = (Tstar, pstar).
Proof using All.
  revert k. induction j as [|j IH]; intros k Hk Hj.
  - replace k with kstar by lia. apply shortest_level_found.
  - rewrite shortest_level_skip by lia. apply IH; lia.
Qed.

Lemma shortest_from_one :
  shortest 17 (Finite false m e) q n 1 = (Tstar, pstar).
Proof using All.
  pose proof stop_level_range as Hks.
  replace 17%nat with (S (Z.to_nat (kstar - 1) + (16 - Z.to_nat (kstar - 1))))
    by lia.
  apply shortest_search; lia.
Qed.

End Shortest.

Lemma strip_zeros_pow (j fuel : nat) (s p : Z) :
  (s mod 10 <> 0)%Z -> (j <= fuel)%nat ->
  strip_zeros fuel (s * 10 ^ Z.of_nat j) p = (s, (p + Z.of_nat j)%Z).
Proof.
  revert fuel p. induction j as [|j IH]; intros fuel p Hs Hj.
  - change (10 ^ Z.of_nat 0)%Z with 1%Z. rewrite Z.mul_1_r, Z.add_0_r.
    destruct fuel as [|fuel]; [reflexivity|]. cbn [strip_zeros].
    destruct (Z.eqb_spec (s mod 10) 0); [contradiction | reflexivity].
  - destruct fuel as [|fuel]; [lia|]. cbn [strip_zeros].
    rewrite Nat2Z.inj_succ, Z.pow_succ_r by lia.
    replace (s * (10 * 10 ^ Z.of_nat j))%Z with (s * 10 ^ Z.of_nat j * 10)%Z by ring.
    rewrite Z.mod_mul by lia. cbn [Z.eqb].
    rewrite Z.div_mul by lia. rewrite IH by (auto; lia). f_equal. lia.
Qed.

(** The search on the Number that a decimal of at most fifteen digits
    rounds to gives back the digits and the exponent of the decimal. *)
Lemma shortest_decimal_rounded (s0 z : Z) (m : positive) (e : Z) :
  (1 <= s0 < 10 ^ 15)%Z -> (s0 mod 10 <> 0)%Z -> (-1 <= z)%Z ->
  round_mag false (dec s0 z) = Finite false m e ->
  shortest_decimal m e = (s0, (ndigits s0 + z)%Z).
Proof.
  intros Hs0 Hmod Hz Hx. unfold shortest_decimal.
  rewrite (shortest_from_one s0 z m e Hs0 Hmod Hz Hx).
  pose proof (decade_le s0 z m e Hs0 Hmod Hz Hx) as Hle.
  pose proof (decade_ge s0 z m e Hs0 Hmod Hz Hx) as Hge.
  cbv zeta in Hle, Hge.
  set (n := decade (mag m e)) in *.
  set (pstar := (n - Z.max 1 (n - z))%Z).
  assert (Hj : (0 <= z - pstar <= 1)%Z) by (unfold pstar; lia).
  rewrite <- (Z2Nat.id (z - pstar)) by lia.
  rewrite strip_zeros_pow by (auto; lia).
  rewrite Z2Nat.id by lia. f_equal. lia.
Qed.

Local Open Scope Z_scope.

(** ** Integers as Numbers *)

Local Open Scope Q_scope.

(** An integer below [2^53] is a Number. *)
Lemma round_mag_integer (neg : bool) (n : Z) :
  (1 <= n < 2 ^ 53)%Z ->
  exists m e, round_mag neg (inject_Z n) = Finite neg m e /\
              mag m e == inject_Z n.
Proof.
  intros Hn. set (q := inject_Z n).
  assert (Hq1 : 1 <= q).
  { unfold q. change 1 with (inject_Z 1). rewrite <- Zle_Qle. lia. }
  assert (Hq : 0 < q) by lra.
  assert (Hhi : q < 2 ^ 53).
  { unfold q. rewrite <- pow2_inject by lia. rewrite <- Zlt_Qlt. lia. }
  destruct (round_mag_finite neg q) as (m & e & Hr).
  { eapply Qle_trans; [|exact Hq1]. discriminate. }
  { eapply Qlt_trans; [exact Hhi|]. apply pow2_mono_lt. lia. }
  exists m, e. split; [exact Hr|].
  destruct (round_mag_value neg q neg m e Hq Hr) as [_ Hv]. rewrite Hv.
  pose proof (ilog2_lt q 53 Hq Hhi) as HE.
  assert (He : (rexp q <= 0)%Z) by (unfold rexp; lia).
  assert (Hint : q * 2 ^ (- rexp q) == inject_Z (n * 2 ^ (- rexp q))).
  { rewrite inject_Z_mult, pow2_inject by lia. reflexivity. }
  unfold rint. rewrite (round_half_even_proper _ _ Hint), round_half_even_Z.
  rewrite <- Hint, <- Qmult_assoc, (Qmult_comm (2 ^ (- rexp q))).
  rewrite Qpow_cancel by reflexivity. ring.
Qed.

Lemma of_Z_exact (n : Z) :
  (1 <= n < 2 ^ 53)%Z ->
  exists m e, of_Z n = Finite false m e /\ mag m e == inject_Z n.
Proof.
  intros Hn. unfold of_Z. rewrite of_Q_pos.
  - now apply round_mag_integer.
  - change 0 with (inject_Z 0). rewrite <- Zlt_Qlt. lia.
Qed.

(** ** Decimals without trailing zeros *)

Local Open Scope Z_scope.

Lemma trailing_zeros (n : Z) :
  1 <= n ->
  exists (s : Z) (z : nat),
    n = s * 10 ^ Z.of_nat z /\ 1 <= s <= n /\ s mod 10 <> 0.
Proof.
  intros Hn. assert (H0 : 0 <= n) by lia. revert Hn. pattern n.
  apply Zlt_0_ind; [|exact H0]. clear n H0. intros n IH _ Hn.
  destruct (Z.eq_dec (n mod 10) 0) as [Hz|Hnz].
  - pose proof (Z.div_mod n 10 ltac:(lia)) as Hdm. rewrite Hz in Hdm.
    destruct (IH (n / 10)) as (s & z & Hs & Hrange & Hmod); [lia | lia |].
    exists s, (S z). rewrite Nat2Z.inj_succ, Z.pow_succ_r by lia.
    split; [|split; [lia | exact Hmod]]. lia.
  - exists n, 0%nat. change (10 ^ Z.of_nat 0) with 1. split; [lia|]. split; [lia | exact Hnz].
Qed.

Lemma zeros_snoc (z : nat) : zeros z ++ "0" = zeros (S z).
Proof.
  induction z as [|z IH]; [reflexivity|].
  cbn [zeros]. rewrite append_cons. now rewrite IH.
Qed.

Lemma digits_mul_pow10 (s : Z) (z : nat) :
  1 <= s -> digits (s * 10 ^ Z.of_nat z) = digits s ++ zeros z.
Proof.
  intros Hs. induction z as [|z IH].
  - change (10 ^ Z.of_nat 0) with 1. now rewrite Z.mul_1_r, append_nil_r.
  - rewrite Nat2Z.inj_succ, Z.pow_succ_r by lia.
    replace (s * (10 * 10 ^ Z.of_nat z)) with (s * 10 ^ Z.of_nat z * 10) by ring.
    assert (Hpos : 1 <= s * 10 ^ Z.of_nat z).
    { pose proof (Z.pow_pos_nonneg 10 (Z.of_nat z) ltac:(lia) ltac:(lia)). nia. }
    rewrite digits_step by lia.
    rewrite Z.div_mul, Z.mod_mul by lia. rewrite IH.
    change (String (digit_char 0) "") with "0".
    now rewrite append_assoc, zeros_snoc.
Qed.

Lemma length_zeros (z : nat) : String.length (zeros z) = z.
Proof. induction z as [|z IH]; [reflexivity|]. cbn. now rewrite IH. Qed.

Lemma ndigits_mul_pow10 (s : Z) (z : nat) :
  1 <= s -> ndigits (s * 10 ^ Z.of_nat z) = ndigits s + Z.of_nat z.
Proof.
  intros Hs. unfold ndigits.
  rewrite digits_mul_pow10, length_append, length_zeros by exact Hs. lia.
Qed.

Lemma ndigits_le (n : Z) (k : Z) : 1 <= n < 10 ^ k -> ndigits n <= k.
Proof.
  intros Hn. destruct (ndigits_spec n) as [Hlo _]; [lia|].
  destruct (Z.le_gt_cases (ndigits n) k) as [H|H]; [exact H|].
  pose proof (ndigits_pos n) as Hk.
  assert (0 <= k).
  { destruct (Z.lt_ge_cases k 0) as [Hneg|]; [|assumption].
    rewrite Z.pow_neg_r in Hn by exact Hneg. lia. }
  assert (10 ^ k <= 10 ^ (ndigits n - 1)) by (apply Z.pow_le_mono_r; lia).
  lia.
Qed.

(** The layout of an integer below [10^21] is its numeral. *)
Lemma layout_integer (s : Z) (z : nat) :
  1 <= s -> s * 10 ^ Z.of_nat z < 10 ^ 21 ->
  layout s (ndigits s + Z.of_nat z) = digits (s * 10 ^ Z.of_nat z).
Proof.
  intros Hs Hlt. unfold layout.
  assert (Hk : ndigits s + Z.of_nat z <= 21).
  { rewrite <- ndigits_mul_pow10 by exact Hs. apply ndigits_le.
    pose proof (Z.pow_pos_nonneg 10 (Z.of_nat z) ltac:(lia) ltac:(lia)). nia. }
  destruct (Z.leb_spec (ndigits s) (ndigits s + Z.of_nat z)) as [_|]; [|lia].
  destruct (Z.leb_spec (ndigits s + Z.of_nat z) 21) as [_|]; [|lia].
  cbn [andb]. rewrite digits_mul_pow10 by exact Hs.
  do 2 f_equal. lia.
Qed.

(** ** The string of an integer Number *)

Lemma dec_integer (s : Z) (z : nat) :
  (dec s (Z.of_nat z) == inject_Z (s * 10 ^ Z.of_nat z))%Q.
Proof.
  unfold dec. rewrite inject_Z_mult, pow10_inject by lia. reflexivity.
Qed.

Lemma Number_toString_integer (s : Z) (z : nat) (m : positive) (e : Z) :
  1 <= s < 10 ^ 15 -> s mod 10 <> 0 -> s * 10 ^ Z.of_nat z < 10 ^ 21 ->
  round_mag false (inject_Z (s * 10 ^ Z.of_nat z)) = Finite false m e ->
  Number_toString (Finite false m e) = digits (s * 10 ^ Z.of_nat z).
Proof.
  intros Hs Hmod Hlt Hr.
  rewrite <- (round_mag_proper false false eq_refl _ _ (dec_integer s z)) in Hr.
  unfold Number_toString.
  rewrite (shortest_decimal_rounded s (Z.of_nat z) m e Hs Hmod ltac:(lia) Hr).
  rewrite append_nil_l. apply layout_integer; [lia | exact Hlt].
Qed.

(** An integer from 1 below [10^21] that has at most fifteen digits
    before its trailing zeros: the string of its Number is its
    numeral. *)
Lemma Number_toString_round_integer (s : Z) (z : nat) :
  1 <= s < 10 ^ 15 -> s mod 10 <> 0 -> s * 10 ^ Z.of_nat z < 10 ^ 21 ->
  exists m e,
    round_mag false (inject_Z (s * 10 ^ Z.of_nat z)) = Finite false m e /\
    Number_toString (Finite false m e) = digits (s * 10 ^ Z.of_nat z).
Proof.
  intros Hs Hmod Hlt.
  assert (Hpos : 1 <= s * 10 ^ Z.of_nat z).
  { pose proof (Z.pow_pos_nonneg 10 (Z.of_nat z) ltac:(lia) ltac:(lia)). nia. }
  destruct (round_mag_finite false (inject_Z (s * 10 ^ Z.of_nat z)))
    as (m & e & Hr).
  - apply Qle_trans with (inject_Z 1); [discriminate|].
    rewrite <- Zle_Qle. exact Hpos.
  - apply Qlt_le_trans with (inject_Z (10 ^ 21)).
    + rewrite <- Zlt_Qlt. exact Hlt.
    + apply Qle_bool_iff. vm_compute. reflexivity.
  - exists m, e. split; [exact Hr|]. now apply Number_toString_integer.
Qed.

(** ** Exact fees *)

Lemma BN_of_number_integer (x : number) (G : Z) :
  holds_integer x G -> Z.abs G < 2 ^ 53 -> BN.of_number x = Ok (BN.Int G).
Proof.
  intros [Hfin Hval] HG. change (2 ^ 53) with 9007199254740992 in HG.
  destruct x as [|s|s|s m e]; try discriminate.
  - cbn [to_Q] in Hval. change 0%Q with (inject_Z 0) in Hval.
    apply (proj1 (inject_Z_injective _ _)) in Hval. now subst G.
  - unfold BN.of_number.
    assert (Hmag : (mag m e == inject_Z (if s then - G else G))%Q).
    { destruct s; cbn [to_Q] in Hval; [|exact Hval].
      rewrite inject_Z_opp, <- Hval. ring. }
    assert (Hfl : Qfloor (mag m e) = if s then - G else G).
    { rewrite (Qfloor_comp _ _ Hmag). apply Qfloor_Z. }
    destruct (Qle_bool (inject_Z 9007199254740992) (mag m e)) eqn:Hb.
    + exfalso. apply Qle_bool_iff in Hb. rewrite Hmag in Hb.
      rewrite <- Zle_Qle in Hb. destruct s; lia.
    + rewrite Hfl. destruct s; [|reflexivity]. do 2 f_equal. lia.
Qed.

Lemma apiEstimateModifiedToWEI_integer (e : Z) :
  0 <= e < 10 ^ 12 ->
  apiEstimateModifiedToWEI (of_Z e) = Ok (BN.Int (e * 1000000000)).
Proof.
  intros He. destruct (Z.eq_dec e 0) as [->|Hnz]; [reflexivity|].
  destruct (of_Z_exact e) as (me & ee & Hof & Hmag).
  { change (2 ^ 53) with 9007199254740992. change (10 ^ 12) with 1000000000000 in He. lia. }
  destruct (of_Z_exact 1000000000) as (mG & eG & HG & HmagG); [lia|].
  unfold apiEstimateModifiedToWEI, GWEIRate. rewrite Hof, HG. cbn [mul xorb].
  assert (Hprod : (mag me ee * mag mG eG == inject_Z (e * 1000000000))%Q).
  { rewrite Hmag, HmagG, inject_Z_mult. reflexivity. }
  rewrite (round_mag_proper false false eq_refl _ _ Hprod).
  destruct (trailing_zeros e) as (s & z & Hs & Hrange & Hmod); [lia|].
  assert (HN : e * 1000000000 = s * 10 ^ Z.of_nat (z + 9)).
  { rewrite Nat2Z.inj_add, Z.pow_add_r by lia.
    change (10 ^ Z.of_nat 9) with 1000000000. rewrite Hs. ring. }
  rewrite HN.
  destruct (Number_toString_round_integer s (z + 9)) as (m & e' & Hr & Hstr).
  - change (10 ^ 15) with 1000000000000000.
    change (10 ^ 12) with 1000000000000 in He. lia.
  - exact Hmod.
  - rewrite <- HN. change (10 ^ 21) with 1000000000000000000000.
    change (10 ^ 12) with 1000000000000 in He. lia.
  - rewrite Hr, Hstr. f_equal. apply BN_of_string_numeral. rewrite <- HN. lia.
Qed.




(** ** The fee functions on an estimate that is not a finite number *)

(** C8, as the source has it.  Nothing checks the estimate.  An
    estimate that is not a finite number (NaN, which is also what
    [estimate * GWEIRate] makes of [undefined] or of a string that
    holds no number, and the infinities) gives no exception: the big
    integer is read from the letters of "NaN" or "Infinity", the fee is
    that integer times the gas limit, and the renderable fee functions
    hand it to their helper and return what the helper returns or
    throws, as it is. *)
Theorem fee_functions_invalid_estimate
    (renderFromWei : BN.t -> result string)
    (weiToFiat : BN.t -> number -> string -> result string)
    (estimate conversionRate : number) (currencyCode : string)
    (gasLimit : option number) (G : Z) :
  is_finite estimate = false ->
  holds_integer (default_arg (of_Z 21000) gasLimit) G ->
  Z.abs G < 2 ^ 53 ->
  let wei :=
    match estimate with
    | Infinity false => 204705124
    | Infinity true => -204705124
    | _ => 2423
    end in
  apiEstimateModifiedToWEI estimate = Ok (BN.Int wei) /\
  getWeiGasFee estimate gasLimit = Ok (BN.Int (wei * G)) /\
  getRenderableEthGasFee renderFromWei estimate gasLimit
    = renderFromWei (BN.Int (wei * G)) /\
  getRenderableFiatGasFee weiToFiat estimate conversionRate currencyCode
    gasLimit = weiToFiat (BN.Int (wei * G)) conversionRate currencyCode.
Proof.
  intros Hfin HG Hb wei.
  assert (Hwei : apiEstimateModifiedToWEI estimate = Ok (BN.Int wei)).
  { destruct estimate as [|[]|s|s m e]; try discriminate Hfin;
      vm_compute; reflexivity. }
  assert (Hfee : getWeiGasFee estimate gasLimit = Ok (BN.Int (wei * G))).
  { unfold getWeiGasFee. rewrite Hwei. cbn [mbind result_bind].
    now rewrite (BN_of_number_integer _ G HG Hb). }
  unfold getRenderableEthGasFee, getRenderableFiatGasFee.
  rewrite Hfee. repeat split; assumption || reflexivity.
Qed.

Lemma fee_functions_invalid_estimate_witness :
  is_finite NaN = false /\
  holds_integer (default_arg (of_Z 21000) None) 21000 /\
  Z.abs 21000 < 2 ^ 53 /\
  getWeiGasFee NaN None = Ok (BN.Int 50883000) /\
  getRenderableEthGasFee
    (fun wei => match wei with
                | BN.Int z => Ok (digits z)
                | BN.OutOfRange => Throw TypeError
                end) NaN None
  = Ok "50883000".
Proof.
  split; [reflexivity|]. split; [split; reflexivity|]. split; [reflexivity|].
  pose proof (fee_functions_invalid_estimate
                (fun wei => match wei with
                            | BN.Int z => Ok (digits z)
                            | BN.OutOfRange => Throw TypeError
                            end)
                (fun _ _ code => Ok code)
                NaN NaN "USD" None 21000 eq_refl
                ltac:(split; reflexivity) eq_refl) as (_ & Hfee & Heth & _).
  split; [exact Hfee|]. rewrite Heth. reflexivity.
Defined.

(** C8 as stated fails at NaN: the construction of the big integer
    does not fail, and the fee is the garbage [2423 * 21000].  It
    fails as well at 0 and 1, which is what the multiplication makes
    of [null], of the empty string and of the booleans: they are fees
    like any other. *)
Lemma fee_functions_NaN_estimate :
  Number_toString (mul NaN GWEIRate) = "NaN" /\
  apiEstimateModifiedToWEI NaN = Ok (BN.Int 2423) /\
  apiEstimateModifiedToWEI NaN <> Throw InvalidInput /\
  getWeiGasFee NaN None = Ok (BN.Int 50883000) /\
  getWeiGasFee NaN None <> Throw InvalidInput /\
  getWeiGasFee (of_Z 0) None = Ok (BN.Int 0) /\
  getWeiGasFee (of_Z 1) None = Ok (BN.Int 21000000000000).
Proof. vm_compute. repeat split; discriminate. Qed.

(** ** Reading a numeral with parseInt *)

Lemma digit_char_plain (d : Z) (rest : string) :
  0 <= d < 10 ->
  trim_start (String (digit_char d) rest) = String (digit_char d) rest /\
  strip_sign (String (digit_char d) rest) = (false, String (digit_char d) rest).
Proof.
  intros H.
  assert (Hd : d = 0 \/ d = 1 \/ d = 2 \/ d = 3 \/ d = 4 \/ d = 5 \/ d = 6
               \/ d = 7 \/ d = 8 \/ d = 9) by lia.
  repeat (destruct Hd as [->|Hd]; [split; reflexivity|]).
  subst d. split; reflexivity.
Qed.

(** [parseInt] reads the numeral at the start of the string and
    ignores what follows it. *)
Lemma parseInt_numeral (n : Z) (rest : string) :
  0 <= n -> no_digit_ahead rest = true ->
  parseInt (digits n ++ rest) 10 = signed false (inject_Z n).
Proof.
  intros Hn Hrest. destruct (digits_head n Hn) as (d & r & Hd & Hdigits).
  destruct (digit_char_plain d (r ++ rest) Hd) as [Htrim Hsign].
  assert (Hparse : parse_digits 10 (digits n ++ rest) None = Some n).
  { rewrite parse_digits_digits, parse_digits_stop by assumption.
    cbn [acc_value]. f_equal. lia. }
  unfold parseInt. rewrite Hdigits, append_cons, Htrim, Hsign.
  rewrite <- append_cons, <- Hdigits.
  change ((10 =? 0)%Z || (2 <=? 10)%Z && (10 <=? 36)%Z) with true.
  cbv iota. change (10 =? 0)%Z with false. change (10 =? 16)%Z with false.
  cbn [orb]. cbv iota.
  destruct (strip_hex_prefix (digits n ++ rest)); now rewrite Hparse.
Qed.

(** ** Substrings of a concatenation *)

Lemma substring_all (s : string) : substring 0 (String.length s) s = s.
Proof. induction s as [|c s IH]; [reflexivity|]. cbn. now rewrite IH. Qed.

Lemma substring_append_l (a b : string) :
  substring 0 (String.length a) (a ++ b) = a.
Proof.
  induction a as [|c a IH].
  - cbn [String.length]. rewrite append_nil_l. now destruct b.
  - rewrite append_cons. cbn [String.length substring]. now rewrite IH.
Qed.

Lemma substring_append_r (a b : string) :
  substring (String.length a) (String.length b) (a ++ b) = b.
Proof.
  induction a as [|c a IH].
  - rewrite append_nil_l. apply substring_all.
  - rewrite append_cons. cbn [String.length substring]. exact IH.
Qed.

(** The layout of a number of tenths. *)
Lemma layout_tenths (n : Z) :
  1 <= n < 10 ^ 15 -> n mod 10 <> 0 ->
  layout n (ndigits n + -1) = digits (n / 10) ++ "." ++ digits (n mod 10).
Proof.
  intros Hn Hmod. unfold layout.
  pose proof (Z.mod_pos_bound n 10 ltac:(lia)) as Hm.
  destruct (Z.lt_ge_cases n 10) as [Hlt|Hge].
  - rewrite ndigits_small by lia. rewrite Z.div_small, Z.mod_small by lia.
    reflexivity.
  - rewrite ndigits_step by exact Hge.
    pose proof (ndigits_pos (n / 10)) as Hk.
    assert (Hk15 : ndigits (n / 10) <= 15).
    { apply ndigits_le. split; [apply Z.div_le_lower_bound; lia|].
      apply Z.div_lt_upper_bound; [lia|].
      change (10 ^ 15) with 1000000000000000 in *. lia. }
    replace (ndigits (n / 10) + 1 + -1) with (ndigits (n / 10)) by lia.
    destruct (Z.leb_spec (ndigits (n / 10) + 1) (ndigits (n / 10))); [lia|].
    cbn [andb].
    destruct (Z.ltb_spec 0 (ndigits (n / 10))); [|lia].
    destruct (Z.leb_spec (ndigits (n / 10)) 21); [|lia].
    cbn [andb]. rewrite digits_step by exact Hge.
    rewrite (digits_small (n mod 10)) by exact Hm.
    unfold substr.
    replace (ndigits (n / 10) + 1 - ndigits (n / 10)) with 1 by lia.
    unfold ndigits. rewrite Nat2Z.id. change (Z.to_nat 0) with 0%nat.
    rewrite substring_append_l.
    change (Z.to_nat 1) with (String.length (String (digit_char (n mod 10)) "")).
    now rewrite substring_append_r.
Qed.

(** ** The GWEI value of a numeral *)

Local Open Scope Q_scope.

Lemma div_by_ten (n : Z) :
  (1 <= n < 2 ^ 53)%Z ->
  div (signed false (inject_Z n)) (of_Z 10) =
  round_mag false (inject_Z n / 10).
Proof.
  intros Hn.
  assert (Hpos : 0 < inject_Z n).
  { change 0 with (inject_Z 0). rewrite <- Zlt_Qlt. lia. }
  unfold signed. destruct (Qcompare_spec (inject_Z n) 0) as [H|H|H]; [lra | lra |].
  destruct (round_mag_integer false n Hn) as (m & e & Hr & Hmag).
  destruct (of_Z_exact 10) as (m10 & e10 & H10 & Hmag10); [lia|].
  rewrite Hr, H10. cbn [div xorb].
  apply round_mag_proper; [reflexivity|]. now rewrite Hmag, Hmag10.
Qed.

Lemma Number_toString_tenths (n : Z) :
  (1 <= n < 10 ^ 15)%Z ->
  exists m e,
    round_mag false (inject_Z n / 10) = Finite false m e /\
    Number_toString (Finite false m e) =
      if (n mod 10 =? 0)%Z then digits (n / 10)
      else digits (n / 10) ++ "." ++ digits (n mod 10).
Proof.
  intros Hn. change (10 ^ 15)%Z with 1000000000000000%Z in Hn.
  destruct (Z.eqb_spec (n mod 10) 0) as [Hz|Hnz].
  - pose proof (Z.div_mod n 10 ltac:(lia)) as Hdm. rewrite Hz in Hdm.
    assert (Hq : inject_Z n / 10 == inject_Z (n / 10)).
    { rewrite Hdm at 1. rewrite Z.add_0_r, inject_Z_mult.
      change (inject_Z 10) with 10. field. }
    destruct (trailing_zeros (n / 10)) as (s & z & Hs & Hrange & Hmod); [lia|].
    destruct (Number_toString_round_integer s z) as (m & e & Hr & Hstr).
    + change (10 ^ 15)%Z with 1000000000000000%Z. lia.
    + exact Hmod.
    + rewrite <- Hs. change (10 ^ 21)%Z with 1000000000000000000000%Z. lia.
    + exists m, e. rewrite (round_mag_proper false false eq_refl _ _ Hq).
      rewrite Hs at 1. split; [exact Hr|]. now rewrite Hstr, <- Hs.
  - assert (Hq : dec n (-1) == inject_Z n / 10).
    { unfold dec. change (10 ^ (-1)) with (/ 10). reflexivity. }
    destruct (round_mag_finite false (inject_Z n / 10)) as (m & e & Hr).
    + apply Qle_trans with (1 # 10); [discriminate|].
      apply Qle_shift_div_l; [reflexivity|].
      assert (H1 : inject_Z 1 <= inject_Z n) by (rewrite <- Zle_Qle; lia).
      change (inject_Z 1) with 1 in H1. lra.
    + apply Qlt_le_trans with (inject_Z (2 ^ 53)).
      * apply Qlt_shift_div_r; [reflexivity|].
        assert (H1 : inject_Z n < inject_Z 1000000000000000)
          by (rewrite <- Zlt_Qlt; lia).
        change (inject_Z 1000000000000000) with (1000000000000000 # 1) in H1.
        change (inject_Z (2 ^ 53)) with (9007199254740992 # 1). lra.
      * apply Qle_bool_iff. vm_compute. reflexivity.
    + exists m, e. split; [exact Hr|].
      rewrite <- (round_mag_proper false false eq_refl _ _ Hq) in Hr.
      unfold Number_toString.
      rewrite (shortest_decimal_rounded n (-1) m e); [|lia|exact Hnz|lia|exact Hr].
      rewrite append_nil_l. apply layout_tenths; [|exact Hnz].
      change (10 ^ 15)%Z with 1000000000000000%Z. lia.
Qed.




(** * Further properties *)

Local Open Scope string_scope.
Local Open Scope Z_scope.

(** ** The wait-time formatter below an hour *)

Lemma parseWaitTime_no_hours (min : number) (strHour strMin strSec : string) :
  let weeks := Math_floor (div min (of_Z 10080)) in
  let days := Math_floor (div (rem min (of_Z 10080)) (of_Z 1440)) in
  let hours := Math_floor (div (rem min (of_Z 1440)) (of_Z 60)) in
  let minutes := Math_floor (rem min (of_Z 60)) in
  let seconds :=
    div (mul (Math_round (mul (rem min (of_Z 1)) (of_Z 100))) (of_Z 3))
      (of_Z 5) in
  ToBoolean weeks = false ->
  ToBoolean days = false ->
  ToBoolean hours = false ->
  parseWaitTime min strHour strMin strSec =
    if ge minutes (of_Z 1) then Number_toString minutes ++ strMin
    else if gt seconds (of_Z 1)
         then Number_toString (Math_ceil seconds) ++ strSec
         else "".
Proof.
  intros weeks days hours minutes seconds Hw Hd Hh. unfold parseWaitTime.
  fold weeks. rewrite Hw. fold days. rewrite Hd. fold hours. rewrite Hh.
  cbn [negb andb]. fold minutes.
  destruct (ge minutes (of_Z 1)); cbn [negb andb].
  - now rewrite spaced_empty, append_nil_l.
  - fold seconds. destruct (gt seconds (of_Z 1)); [|reflexivity].
    now rewrite spaced_empty, append_nil_l.
Qed.

(** X1.  When the weeks, the days and the hours of [min] are zero and
    its whole minutes are at least one, the result is the minutes
    segment alone: the seconds of the remainder are left out, whatever
    they are. *)
Theorem parseWaitTime_minute_segment
    (min : number) (strHour strMin strSec : string) :
  let weeks := Math_floor (div min (of_Z 10080)) in
  let days := Math_floor (div (rem min (of_Z 10080)) (of_Z 1440)) in
  let hours := Math_floor (div (rem min (of_Z 1440)) (of_Z 60)) in
  let minutes := Math_floor (rem min (of_Z 60)) in
  ToBoolean weeks = false ->
  ToBoolean days = false ->
  ToBoolean hours = false ->
  ge minutes (of_Z 1) = true ->
  parseWaitTime min strHour strMin strSec = Number_toString minutes ++ strMin.
Proof.
  intros weeks days hours minutes Hw Hd Hh Hm.
  rewrite (parseWaitTime_no_hours min strHour strMin strSec Hw Hd Hh).
  fold minutes. now rewrite Hm.
Qed.

Lemma parseWaitTime_minute_segment_witness :
  parseWaitTime (div (of_Z 11) (of_Z 5)) "h" "m" "s" = "2m".
Proof.
  rewrite (parseWaitTime_minute_segment (div (of_Z 11) (of_Z 5)) "h" "m" "s")
    by (vm_compute; reflexivity).
  vm_compute. reflexivity.
Defined.

(** ** Failures and odd bodies of the estimate fetcher *)

Lemma json_null_dec (body : json) : body = JNull \/ body <> JNull.
Proof. destruct body; [now left | right; discriminate ..]. Qed.

(** X2.  The fetcher rejects in three cases only, and with the
    exception of the step that failed: the request was rejected, the
    body did not parse, or the body is [null] (a TypeError). *)
Theorem fetchBasicGasEstimates_failure
    (fetch : string -> request_init -> result response) (err : error) :
  fetchBasicGasEstimates fetch = Throw err <->
  fetch endpoint options = Throw err \/
  exists r : response,
    fetch endpoint options = Ok r /\
    (json_body r = Throw err \/ (json_body r = Ok JNull /\ err = TypeError)).
Proof.
  unfold fetchBasicGasEstimates.
  destruct (fetch endpoint options) as [r|e1] eqn:Hfetch; cbn.
  - destruct (json_body r) as [body|e2] eqn:Hjson; cbn.
    + destruct (json_null_dec body) as [->|Hbody].
      * split.
        -- intros [= <-]. right. exists r. rewrite Hjson. auto.
        -- intros [H|(r' & [= <-] & [H|[_ ->]])]; try discriminate.
           ++ rewrite Hjson in H. discriminate.
           ++ reflexivity.
      * destruct (basicEstimates_of_not_null body Hbody) as (out & -> & _).
        split; [discriminate|].
        intros [H|(r' & [= <-] & [H|[H _]])]; try discriminate;
          rewrite Hjson in H; [discriminate|]. now injection H.
    + split.
      * intros [= <-]. right. exists r. rewrite Hjson. auto.
      * intros [H|(r' & [= <-] & [H|[H _]])]; try discriminate;
          rewrite Hjson in H; [now injection H as -> | discriminate].
  - split.
    + intros [= <-]. now left.
    + intros [[= <-]|(r' & H & _)]; [reflexivity | discriminate].
Qed.

Lemma fetchBasicGasEstimates_failure_witness :
  fetchBasicGasEstimates (fun _ _ => Ok {| json_body := Throw ParseError |})
  = Throw ParseError.
Proof.
  apply (proj2 (fetchBasicGasEstimates_failure
                  (fun _ _ => Ok {| json_body := Throw ParseError |})
                  ParseError)).
  right. exists {| json_body := Throw ParseError |}. split; [reflexivity|].
  left. reflexivity.
Defined.

(** X3.  A body that parses to an array, a string, a number or a
    boolean is not an error: the result has the eleven keys, all of them
    [undefined]. *)
Theorem fetchBasicGasEstimates_scalar_body
    (fetch : string -> request_init -> result response)
    (r : response) (body : json) :
  fetch endpoint options = Ok r ->
  json_body r = Ok body ->
  is_object_or_null body = false ->
  exists out : gmap string value,
    fetchBasicGasEstimates fetch = Ok out /\
    dom out = list_to_set estimate_keys /\
    forall key : string, key ∈ estimate_keys -> out !! key = Some Undefined.
Proof.
  intros Hfetch Hjson Hbody.
  assert (Hnull : body <> JNull) by (intros ->; discriminate).
  assert (Hget : forall key, get body key = Undefined)
    by (intros key; destruct body; try reflexivity; discriminate).
  destruct (basicEstimates_of_not_null body Hnull)
    as (out & Hout & Hdom & Havg & Hblock & Hcopy).
  exists out. unfold fetchBasicGasEstimates.
  rewrite Hfetch. cbn. rewrite Hjson. cbn.
  split; [exact Hout|]. split; [exact Hdom|].
  intros key Hkey. unfold estimate_keys in Hkey.
  apply elem_of_cons in Hkey as [->|Hkey].
  { rewrite (Hcopy "average"), Hget; [reflexivity|].
    apply (bool_decide_unpack _). vm_compute. exact I. }
  apply elem_of_cons in Hkey as [->|Hkey]; [now rewrite Havg, Hget|].
  apply elem_of_cons in Hkey as [->|Hkey]; [now rewrite Hblock, Hget|].
  rewrite (Hcopy key), Hget; [reflexivity|].
  unfold copied_keys. apply elem_of_cons. now right.
Qed.

Lemma fetchBasicGasEstimates_scalar_body_witness :
  exists out : gmap string value,
    fetchBasicGasEstimates
      (fun _ _ => Ok {| json_body := Ok (JArray [JNumber (of_Z 50)]) |})
      = Ok out /\
    out !! "average" = Some Undefined.
Proof.
  destruct (fetchBasicGasEstimates_scalar_body
              (fun _ _ => Ok {| json_body := Ok (JArray [JNumber (of_Z 50)]) |})
              {| json_body := Ok (JArray [JNumber (of_Z 50)]) |}
              (JArray [JNumber (of_Z 50)]) eq_refl eq_refl eq_refl)
    as (out & Hout & _ & Hall).
  exists out. split; [exact Hout|]. apply Hall.
  apply (bool_decide_unpack _). vm_compute. exact I.
Defined.

(** X4.  The result depends on the eleven properties that are read and
    on nothing else: two bodies that agree on them give the same
    estimates, whatever else they hold. *)
Theorem fetchBasicGasEstimates_reads_eleven
    (fetch1 fetch2 : string -> request_init -> result response)
    (r1 r2 : response) (fields1 fields2 : gmap string json) :
  fetch1 endpoint options = Ok r1 ->
  fetch2 endpoint options = Ok r2 ->
  json_body r1 = Ok (JObject fields1) ->
  json_body r2 = Ok (JObject fields2) ->
  (forall key : string, key ∈ response_keys ->
     fields1 !! key = fields2 !! key) ->
  fetchBasicGasEstimates fetch1 = fetchBasicGasEstimates fetch2.
Proof.
  intros Hf1 Hf2 Hj1 Hj2 Hagree. unfold fetchBasicGasEstimates.
  rewrite Hf1, Hf2. cbn. rewrite Hj1, Hj2. cbn.
  unfold basicEstimates_of, get.
  rewrite !(Hagree "average"), !(Hagree "avgWait"), !(Hagree "block_time"),
    !(Hagree "blockNum"), !(Hagree "fast"), !(Hagree "fastest"),
    !(Hagree "fastestWait"), !(Hagree "fastWait"), !(Hagree "safeLow"),
    !(Hagree "safeLowWait"), !(Hagree "speed")
    by (apply (bool_decide_unpack _); vm_compute; exact I).
  reflexivity.
Qed.

Lemma fetchBasicGasEstimates_reads_eleven_witness :
  fetchBasicGasEstimates
    (fun _ _ => Ok {| json_body := Ok (JObject {["extra" := JNull]}) |}) =
  fetchBasicGasEstimates (fun _ _ => Ok {| json_body := Ok (JObject ∅) |}).
Proof.
  apply (fetchBasicGasEstimates_reads_eleven
           (fun _ _ => Ok {| json_body := Ok (JObject {["extra" := JNull]}) |})
           (fun _ _ => Ok {| json_body := Ok (JObject ∅) |})
           {| json_body := Ok (JObject {["extra" := JNull]}) |}
           {| json_body := Ok (JObject ∅) |}
           {["extra" := JNull]} ∅ eq_refl eq_refl eq_refl eq_refl).
  intros key Hkey. unfold response_keys in Hkey.
  repeat (apply elem_of_cons in Hkey as [->|Hkey]; [reflexivity|]).
  by apply elem_of_nil in Hkey.
Defined.

(** ** The renderable fees *)

(** X5.  The renderable fees are what the helpers make of the exact
    fee: for an integer estimate below [10^12] and a gas limit that
    holds an integer [G] of magnitude below [2^53], [renderFromWei]
    receives [e * 1000000000 * G], and [weiToFiat] receives it with the
    conversion rate and the currency code as they were passed. *)
Theorem renderable_fees_of_exact_fee
    (renderFromWei : BN.t -> result string)
    (weiToFiat : BN.t -> number -> string -> result string)
    (e : Z) (gasLimit : option number) (G : Z)
    (conversionRate : number) (currencyCode : string) :
  0 <= e < 10 ^ 12 ->
  holds_integer (default_arg (of_Z 21000) gasLimit) G ->
  Z.abs G < 2 ^ 53 ->
  getRenderableEthGasFee renderFromWei (of_Z e) gasLimit =
    renderFromWei (BN.Int (e * 1000000000 * G)) /\
  getRenderableFiatGasFee weiToFiat (of_Z e) conversionRate currencyCode
    gasLimit =
    weiToFiat (BN.Int (e * 1000000000 * G)) conversionRate currencyCode.
Proof.
  intros He HG Hb.
  assert (Hfee :
    getWeiGasFee (of_Z e) gasLimit = Ok (BN.Int (e * 1000000000 * G))).
  { unfold getWeiGasFee. rewrite (apiEstimateModifiedToWEI_integer e He).
    cbn [mbind result_bind]. now rewrite (BN_of_number_integer _ G HG Hb). }
  unfold getRenderableEthGasFee, getRenderableFiatGasFee. rewrite Hfee.
  split; reflexivity.
Qed.

Lemma renderable_fees_of_exact_fee_witness :
  0 <= 20 < 10 ^ 12 /\
  holds_integer (default_arg (of_Z 21000) (Some (of_Z 90000))) 90000 /\
  Z.abs 90000 < 2 ^ 53 /\
  getRenderableEthGasFee
    (fun wei => match wei with
                | BN.Int z => Ok (digits z)
                | BN.OutOfRange => Throw TypeError
                end) (of_Z 20) (Some (of_Z 90000))
  = Ok "1800000000000000".
Proof.
  split; [split; [discriminate | reflexivity]|].
  split; [split; reflexivity|]. split; [reflexivity|].
  rewrite (proj1 (renderable_fees_of_exact_fee
                    (fun wei => match wei with
                                | BN.Int z => Ok (digits z)
                                | BN.OutOfRange => Throw TypeError
                                end)
                    (fun _ _ code => Ok code)
                    20 (Some (of_Z 90000)) 90000 NaN "USD"
                    ltac:(split; [discriminate | reflexivity])
                    ltac:(split; reflexivity) eq_refl)).
  vm_compute. reflexivity.
Defined.

(** ** White space and signs before an API value *)

Lemma white_space_code_unit (c : ascii) :
  existsb (Ascii.eqb c) white_space_code_units = true ->
  is_white_space c = true.
Proof.
  unfold white_space_code_units. cbn [existsb].
  rewrite !orb_true_iff.
  intros [H|[H|[H|[H|[H|[H|[H|H]]]]]]];
    try discriminate H; apply Ascii.eqb_eq in H; subst c; reflexivity.
Qed.

Lemma trim_start_white_space (ws s : string) :
  all_white_space ws = true -> trim_start (ws ++ s) = trim_start s.
Proof.
  induction ws as [|c ws IH]; [reflexivity|].
  cbn [all_white_space]. intros [Hc Hws]%andb_true_iff.
  rewrite append_cons. cbn [trim_start].
  rewrite (white_space_code_unit c Hc). now apply IH.
Qed.

(** X6.  White space before the value is ignored, whatever the value
    is: tabs, line feeds, vertical tabs, form feeds, carriage returns,
    spaces and no-break spaces, in any number and order. *)
Theorem convertApiValueToGWEI_leading_white_space (ws val : string) :
  all_white_space ws = true ->
  convertApiValueToGWEI (ws ++ val) = convertApiValueToGWEI val.
Proof.
  intros Hws. unfold convertApiValueToGWEI, parseInt.
  now rewrite (trim_start_white_space ws val Hws).
Qed.

Lemma convertApiValueToGWEI_leading_white_space_witness :
  all_white_space
    (String "009" (String "010" (String "011" (String "012"
       (String "013" (String " " (String "160" ""))))))) = true /\
  convertApiValueToGWEI
    (String "009" (String "010" (String "011" (String "012"
       (String "013" (String " " (String "160" "25"))))))) = "2.5".
Proof.
  split; [reflexivity|].
  change (String "009" (String "010" (String "011" (String "012"
            (String "013" (String " " (String "160" "25")))))))
    with (String "009" (String "010" (String "011" (String "012"
            (String "013" (String " " (String "160" "")))))) ++ "25").
  rewrite (convertApiValueToGWEI_leading_white_space
             (String "009" (String "010" (String "011" (String "012"
                (String "013" (String " " (String "160" "")))))))
             "25" eq_refl).
  vm_compute. reflexivity.
Defined.

Lemma round_mag_sign (neg : bool) (q : Q) (m : positive) (e : Z) :
  round_mag false q = Finite false m e -> round_mag neg q = Finite neg m e.
Proof.
  unfold round_mag.
  destruct (if _ =? _ then 2 ^ 52 else _) as [|t|t]; try discriminate.
  destruct (_ >? 971); [discriminate|]. now intros [= <- <-].
Qed.

Lemma Number_toString_negative (m : positive) (e : Z) :
  Number_toString (Finite true m e) =
  "-" ++ Number_toString (Finite false m e).
Proof.
  unfold Number_toString. destruct (shortest_decimal m e) as [s n].
  now rewrite append_nil_l.
Qed.

Lemma parseInt_signed_numeral (neg : bool) (n : Z) (rest : string) :
  0 <= n -> no_digit_ahead rest = true ->
  parseInt ((if neg then "-" else "+") ++ digits n ++ rest) 10 =
  signed neg (inject_Z n).
Proof.
  intros Hn Hrest.
  assert (Hparse : parse_digits 10 (digits n ++ rest) None = Some n).
  { rewrite parse_digits_digits, parse_digits_stop by assumption.
    cbn [acc_value]. f_equal. lia. }
  assert (Hsign : strip_sign (trim_start ((if neg then "-" else "+")
                                            ++ digits n ++ rest))
                  = (neg, digits n ++ rest)) by (destruct neg; reflexivity).
  unfold parseInt. rewrite Hsign.
  change ((10 =? 0)%Z || (2 <=? 10)%Z && (10 <=? 36)%Z) with true.
  cbv iota. change (10 =? 0)%Z with false. change (10 =? 16)%Z with false.
  cbn [orb]. cbv iota.
  destruct (strip_hex_prefix (digits n ++ rest)); now rewrite Hparse.
Qed.

(** X7.  A sign before the numeral: a plus sign changes nothing, a
    minus sign puts a minus before the result, except that the numeral
    of zero gives "0" with either sign. *)
Theorem convertApiValueToGWEI_signed (n : Z) (rest : string) :
  0 <= n < 10 ^ 15 ->
  no_digit_ahead rest = true ->
  convertApiValueToGWEI ("+" ++ digits n ++ rest) =
    convertApiValueToGWEI (digits n ++ rest) /\
  convertApiValueToGWEI ("-" ++ digits n ++ rest) =
    if n =? 0 then "0"
    else "-" ++ convertApiValueToGWEI (digits n ++ rest).
Proof.
  intros Hn Hrest. unfold convertApiValueToGWEI.
  rewrite (parseInt_signed_numeral false n rest) by (assumption || lia).
  rewrite (parseInt_signed_numeral true n rest) by (assumption || lia).
  rewrite parseInt_numeral by (assumption || lia).
  split; [reflexivity|].
  destruct (Z.eqb_spec n 0) as [->|Hnz]; [reflexivity|].
  assert (Hn53 : 1 <= n < 2 ^ 53).
  { change (10 ^ 15) with 1000000000000000 in Hn.
    change (2 ^ 53) with 9007199254740992. lia. }
  rewrite div_by_ten by exact Hn53.
  destruct (Number_toString_tenths n) as (m & e & Hr & _); [lia|].
  rewrite Hr, <- Number_toString_negative.
  assert (Hpos : (0 < inject_Z n)%Q).
  { change 0%Q with (inject_Z 0). rewrite <- Zlt_Qlt. lia. }
  unfold signed. destruct (Qcompare_spec (inject_Z n) 0) as [H|H|H];
    [rewrite H in Hpos; discriminate | exfalso; lra |].
  destruct (round_mag_integer false n Hn53) as (mn & en & Hrn & Hmag).
  destruct (of_Z_exact 10) as (m10 & e10 & H10 & Hmag10); [lia|].
  rewrite (round_mag_sign true _ mn en Hrn), H10. cbn [div xorb].
  assert (Hq : (mag mn en / mag m10 e10 == inject_Z n / 10)%Q)
    by now rewrite Hmag, Hmag10.
  rewrite (round_mag_proper true true eq_refl _ _ Hq).
  now rewrite (round_mag_sign true _ m e Hr).
Qed.

Lemma convertApiValueToGWEI_signed_witness :
  convertApiValueToGWEI "-25 gwei" = "-2.5".
Proof.
  change "-25 gwei" with ("-" ++ digits 25 ++ " gwei").
  rewrite (proj2 (convertApiValueToGWEI_signed 25 " gwei"
                    ltac:(split; [discriminate | reflexivity]) eq_refl)).
  vm_compute. reflexivity.
Defined.

(** ** Estimates with a binary fraction *)

Local Open Scope Q_scope.

(** An integer below [2^53] over a small power of two is a Number. *)
Lemma round_mag_binary_fraction (neg : bool) (a : Z) (j : nat) :
  (1 <= a < 2 ^ 53)%Z -> (j <= 9)%nat ->
  exists m e,
    round_mag neg (inject_Z a / inject_Z (2 ^ Z.of_nat j)) = Finite neg m e /\
    mag m e == inject_Z a / inject_Z (2 ^ Z.of_nat j).
Proof.
  intros Ha Hj. set (J := Z.of_nat j).
  assert (HJ : (0 <= J <= 9)%Z) by (unfold J; lia).
  pose proof (Qpow_pos 2 J two_pos) as HP.
  pose proof (Qpow_cancel 2 J two_pos) as Hc.
  assert (Hq0 : inject_Z a / inject_Z (2 ^ J) == inject_Z a * 2 ^ (- J)).
  { rewrite pow2_inject by lia. unfold Qdiv. now rewrite Qpower_opp. }
  rewrite (round_mag_proper neg neg eq_refl _ _ Hq0).
  set (q := inject_Z a * 2 ^ (- J)) in *.
  pose proof (Qpow_pos 2 (- J) two_pos) as HP'.
  assert (Ha1 : 1 <= inject_Z a).
  { change 1 with (inject_Z 1). rewrite <- Zle_Qle. lia. }
  assert (Hlo : 2 ^ (- J) <= q).
  { unfold q. rewrite <- (Qmult_1_l (2 ^ (- J))) at 1.
    apply Qmult_le_compat_r; lra. }
  assert (Hq : 0 < q) by lra.
  assert (Hhi : q < 2 ^ (53 - J)).
  { unfold q, Z.sub. rewrite (Qpow_add 2 53) by reflexivity.
    apply Qmult_lt_compat_r; [exact HP'|].
    rewrite <- pow2_inject by lia. rewrite <- Zlt_Qlt. lia. }
  destruct (round_mag_finite neg q) as (m & e & Hr).
  { eapply Qle_trans; [|exact Hlo]. apply pow2_mono. lia. }
  { eapply Qlt_trans; [exact Hhi|]. apply pow2_mono_lt. lia. }
  exists m, e. split; [exact Hr|]. rewrite Hq0.
  destruct (round_mag_value neg q neg m e Hq Hr) as [_ Hv]. rewrite Hv.
  pose proof (ilog2_lt q (53 - J) Hq Hhi) as HE.
  assert (He : (rexp q <= - J)%Z) by (unfold rexp; lia).
  assert (Hint : q * 2 ^ (- rexp q) == inject_Z (a * 2 ^ (- J - rexp q))).
  { unfold q at 1. rewrite inject_Z_mult, pow2_inject by lia.
    rewrite <- Qmult_assoc, <- Qpow_add by reflexivity.
    now replace (- J + - rexp q)%Z with (- J - rexp q)%Z by lia. }
  unfold rint. rewrite (round_half_even_proper _ _ Hint), round_half_even_Z.
  rewrite <- Hint, <- Qmult_assoc, (Qmult_comm (2 ^ (- rexp q))).
  rewrite Qpow_cancel by reflexivity. ring.
Qed.

Local Open Scope Z_scope.

Lemma binary_fraction_wei (a : Z) (j : nat) :
  (j <= 9)%nat ->
  a * 5 ^ Z.of_nat j * 10 ^ Z.of_nat (9 - j) * 2 ^ Z.of_nat j
  = a * 1000000000.
Proof.
  intros Hj.
  do 10 (destruct j as [|j]; [cbn; lia|]). lia.
Qed.

Lemma apiEstimateModifiedToWEI_binary_fraction (a : Z) (j : nat) :
  (j <= 9)%nat -> 0 <= a -> a * 5 ^ Z.of_nat j < 10 ^ 12 ->
  apiEstimateModifiedToWEI (div (of_Z a) (of_Z (2 ^ Z.of_nat j))) =
  Ok (BN.Int (a * 5 ^ Z.of_nat j * 10 ^ Z.of_nat (9 - j))).
Proof.
  intros Hj Ha Hlt.
  assert (H5 : 1 <= 5 ^ Z.of_nat j)
    by (pose proof (Z.pow_pos_nonneg 5 (Z.of_nat j)); lia).
  assert (H2 : 1 <= 2 ^ Z.of_nat j < 2 ^ 53).
  { split; [pose proof (Z.pow_pos_nonneg 2 (Z.of_nat j)); lia|].
    apply Z.pow_lt_mono_r; lia. }
  change (10 ^ 12) with 1000000000000 in Hlt.
  destruct (of_Z_exact (2 ^ Z.of_nat j) H2) as (m2 & e2 & Hof2 & Hmag2).
  destruct (Z.eq_dec a 0) as [->|Hnz].
  { rewrite Hof2. reflexivity. }
  assert (Ha53 : 1 <= a < 2 ^ 53).
  { change (2 ^ 53) with 9007199254740992. nia. }
  destruct (of_Z_exact a Ha53) as (ma & ea & Hofa & Hmaga).
  destruct (round_mag_binary_fraction false a j Ha53 Hj)
    as (m & e & Hr & Hmag).
  destruct (of_Z_exact 1000000000) as (mG & eG & HG & HmagG); [lia|].
  unfold apiEstimateModifiedToWEI, GWEIRate. rewrite Hofa, Hof2. cbn [div xorb].
  assert (Hquot : (mag ma ea / mag m2 e2
                   == inject_Z a / inject_Z (2 ^ Z.of_nat j))%Q)
    by now rewrite Hmaga, Hmag2.
  rewrite (round_mag_proper false false eq_refl _ _ Hquot), Hr, HG.
  cbn [mul xorb].
  set (N := a * 5 ^ Z.of_nat j * 10 ^ Z.of_nat (9 - j)).
  assert (Hprod : (mag m e * mag mG eG == inject_Z N)%Q).
  { rewrite Hmag, HmagG.
    pose proof (binary_fraction_wei a j Hj) as HZ. fold N in HZ.
    apply (f_equal inject_Z) in HZ. rewrite !inject_Z_mult in HZ.
    assert (Hnz2 : ~ (inject_Z (2 ^ Z.of_nat j) == 0)%Q).
    { intros H0. change 0%Q with (inject_Z 0) in H0.
      apply (proj1 (inject_Z_injective _ _)) in H0. lia. }
    assert (HN : (inject_Z N == inject_Z a * inject_Z 1000000000
                                / inject_Z (2 ^ Z.of_nat j))%Q).
    { rewrite <- HZ. field. exact Hnz2. }
    rewrite HN. field. exact Hnz2. }
  rewrite (round_mag_proper false false eq_refl _ _ Hprod).
  destruct (trailing_zeros (a * 5 ^ Z.of_nat j)) as (s & z & Hs & Hrange & Hmod);
    [nia|].
  assert (HN : N = s * 10 ^ Z.of_nat (z + (9 - j))).
  { unfold N. rewrite Nat2Z.inj_add, Z.pow_add_r by lia. rewrite Hs at 1. ring. }
  assert (H10 : 1 <= 10 ^ Z.of_nat (9 - j) <= 1000000000).
  { split; [pose proof (Z.pow_pos_nonneg 10 (Z.of_nat (9 - j))); lia|].
    change 1000000000 with (10 ^ 9). apply Z.pow_le_mono_r; lia. }
  rewrite HN.
  destruct (Number_toString_round_integer s (z + (9 - j)))
    as (m' & e' & Hr' & Hstr).
  - change (10 ^ 15) with 1000000000000000. lia.
  - exact Hmod.
  - rewrite <- HN. unfold N. change (10 ^ 21) with 1000000000000000000000. nia.
  - rewrite Hr', Hstr. f_equal. apply BN_of_string_numeral. rewrite <- HN.
    unfold N. nia.
Qed.

(** X8.  An estimate with a binary fraction is converted exactly: for
    an integer [a >= 0] and [j <= 9] with [a * 5^j < 10^12], the wei
    value of [a / 2^j] is [a * 5^j * 10^(9-j)], and the fee at the
    default gas limit is 21000 times that.  So 1.5 gives 1500000000. *)
Theorem fractional_estimate_exact (a : Z) (j : nat) :
  (j <= 9)%nat -> 0 <= a -> a * 5 ^ Z.of_nat j < 10 ^ 12 ->
  let estimate := div (of_Z a) (of_Z (2 ^ Z.of_nat j)) in
  let wei := a * 5 ^ Z.of_nat j * 10 ^ Z.of_nat (9 - j) in
  apiEstimateModifiedToWEI estimate = Ok (BN.Int wei) /\
  getWeiGasFee estimate None = Ok (BN.Int (wei * 21000)).
Proof.
  intros Hj Ha Hlt estimate wei.
  pose proof (apiEstimateModifiedToWEI_binary_fraction a j Hj Ha Hlt) as H.
  fold estimate wei in H. split; [exact H|].
  unfold getWeiGasFee. rewrite H. reflexivity.
Qed.

Lemma fractional_estimate_exact_witness :
  apiEstimateModifiedToWEI (div (of_Z 3) (of_Z 2)) = Ok (BN.Int 1500000000).
Proof.
  apply (fractional_estimate_exact 3 1); [lia | lia | reflexivity].
Defined.

(** ** Whole numbers of minutes *)

Local Open Scope Q_scope.

Lemma signed_of_Z (k : Z) : (0 <= k)%Z -> signed false (inject_Z k) = of_Z k.
Proof.
  intros Hk. unfold signed, of_Z, of_Q.
  destruct (Qcompare_spec (inject_Z k) 0) as [H|H|H]; try reflexivity.
  exfalso. change 0 with (inject_Z 0) in H. rewrite <- Zlt_Qlt in H. lia.
Qed.

Lemma signed_proper (neg : bool) (q q' : Q) :
  q == q' -> signed neg q = signed neg q'.
Proof.
  intros H. unfold signed. rewrite (Qcompare_comp _ _ H 0 0 (Qeq_refl 0)).
  destruct (q' ?= 0); try reflexivity. now apply round_mag_proper.
Qed.

Lemma Qfloor_between (v : Q) (k : Z) :
  inject_Z k <= v -> v < inject_Z (k + 1) -> Qfloor v = k.
Proof.
  intros Hlo Hhi.
  pose proof (Qfloor_le v) as H1. pose proof (Qlt_floor v) as H2.
  assert (Ha : inject_Z (Qfloor v) < inject_Z (k + 1)) by lra.
  assert (Hb : inject_Z k < inject_Z (Qfloor v + 1)) by lra.
  rewrite <- Zlt_Qlt in Ha, Hb. lia.
Qed.

Lemma Math_floor_of_Z (k : Z) :
  (0 <= k < 2 ^ 53)%Z -> Math_floor (of_Z k) = of_Z k.
Proof.
  intros Hk. destruct (Z.eq_dec k 0) as [->|Hnz]; [reflexivity|].
  destruct (of_Z_exact k) as (m & e & Hof & Hmag); [lia|].
  rewrite Hof. unfold Math_floor. cbn [to_Q].
  rewrite (Qfloor_comp _ _ Hmag), Qfloor_Z.
  destruct (Z.ltb_spec k 0); [lia|].
  rewrite <- Hof. apply signed_of_Z. lia.
Qed.

(** The floor of the quotient of two integers below [2^53] is their
    integer quotient: the rounding of the division does not reach the
    next integer. *)
Lemma Math_floor_div_integers (n c : Z) :
  (0 <= n < 2 ^ 53)%Z -> (1 <= c < 2 ^ 53)%Z ->
  Math_floor (div (of_Z n) (of_Z c)) = of_Z (n / c).
Proof.
  intros Hn Hc. destruct (of_Z_exact c Hc) as (mc & ec & Hofc & Hmagc).
  destruct (Z.eq_dec n 0) as [->|Hnz].
  { rewrite Hofc, Z.div_0_l by lia. reflexivity. }
  destruct (of_Z_exact n) as (mn & en & Hofn & Hmagn); [lia|].
  rewrite Hofn, Hofc. cbn [div xorb].
  assert (Hq : mag mn en / mag mc ec == inject_Z n / inject_Z c)
    by now rewrite Hmagn, Hmagc.
  rewrite (round_mag_proper false false eq_refl _ _ Hq).
  pose proof (Z.div_mod n c ltac:(lia)) as Hdm.
  pose proof (Z.mod_pos_bound n c ltac:(lia)) as Hr.
  assert (Hk : (0 <= n / c)%Z) by (apply Z.div_pos; lia).
  set (k := (n / c)%Z) in *. set (r := (n mod c)%Z) in *.
  assert (HC : 1 <= inject_Z c).
  { change 1 with (inject_Z 1). rewrite <- Zle_Qle. lia. }
  assert (HN : 1 <= inject_Z n).
  { change 1 with (inject_Z 1). rewrite <- Zle_Qle. lia. }
  assert (HN53 : inject_Z n < 9007199254740992 # 1).
  { change (9007199254740992 # 1) with (inject_Z (2 ^ 53)).
    rewrite <- Zlt_Qlt. lia. }
  assert (HC53 : inject_Z c < 9007199254740992 # 1).
  { change (9007199254740992 # 1) with (inject_Z (2 ^ 53)).
    rewrite <- Zlt_Qlt. lia. }
  assert (Hnzc : ~ inject_Z c == 0) by (intros H0; rewrite H0 in HC; apply HC; reflexivity).
  assert (HqC : inject_Z n / inject_Z c * inject_Z c == inject_Z n)
    by (field; exact Hnzc).
  assert (HZ : inject_Z n == inject_Z c * inject_Z k + inject_Z r)
    by (rewrite <- inject_Z_mult, <- inject_Z_plus, <- Hdm; reflexivity).
  set (q := inject_Z n / inject_Z c) in *.
  assert (Hqpos : 0 < q).
  { apply (Qmult_lt_r _ _ (inject_Z c)); [lra|]. rewrite HqC. lra. }
  destruct (Z.eq_dec r 0) as [Hr0|Hr0].
  - assert (Hqk : q == inject_Z k).
    { apply (Qmult_inj_r _ _ (inject_Z c)); [exact Hnzc|].
      rewrite HqC, HZ, Hr0. change (inject_Z 0) with 0. ring. }
    assert (Hk1 : (1 <= k < 2 ^ 53)%Z) by nia.
    destruct (round_mag_integer false k Hk1) as (m & e & Hrm & Hmag).
    rewrite (round_mag_proper false false eq_refl _ _ Hqk), Hrm.
    unfold Math_floor. cbn [to_Q]. rewrite (Qfloor_comp _ _ Hmag), Qfloor_Z.
    destruct (Z.ltb_spec k 0); [lia|]. apply signed_of_Z. lia.
  - assert (HR1 : 1 <= inject_Z r).
    { change 1 with (inject_Z 1). rewrite <- Zle_Qle. lia. }
    assert (HR2 : inject_Z r + 1 <= inject_Z c).
    { change 1 with (inject_Z 1). rewrite <- inject_Z_plus.
      rewrite <- Zle_Qle. lia. }
    assert (Hqlo : (1 # 9007199254740992) <= q).
    { apply (Qmult_le_r _ _ (inject_Z c)); [lra|]. rewrite HqC. lra. }
    assert (Hqhi : q <= inject_Z n).
    { apply (Qmult_le_r _ _ (inject_Z c)); [lra|]. rewrite HqC.
      rewrite <- (Qmult_1_r (inject_Z n)) at 1.
      apply Qmult_le_l; lra. }
    destruct (round_mag_finite false q) as (m & e & Hrm).
    { eapply Qle_trans; [|exact Hqlo]. apply Qle_bool_iff. vm_compute. reflexivity. }
    { eapply Qle_lt_trans; [exact Hqhi|].
      eapply Qlt_le_trans; [exact HN53|]. apply Qle_bool_iff. vm_compute. reflexivity. }
    rewrite Hrm.
    destruct (round_mag_error false q false m e) as [He1 He2]; [|exact Hrm|].
    { eapply Qle_trans; [|exact Hqlo]. apply Qle_bool_iff. vm_compute. reflexivity. }
    change (2 ^ (-53)) with (1 # 9007199254740992) in He1, He2.
    assert (H1 : (q - q * (1 # 9007199254740992)) * inject_Z c
                 <= mag m e * inject_Z c)
      by (apply Qmult_le_compat_r; lra).
    assert (H2 : mag m e * inject_Z c
                 <= (q + q * (1 # 9007199254740992)) * inject_Z c)
      by (apply Qmult_le_compat_r; lra).
    assert (E1 : (q - q * (1 # 9007199254740992)) * inject_Z c
                 == inject_Z n - inject_Z n * (1 # 9007199254740992))
      by (rewrite <- HqC; ring).
    assert (E2 : (q + q * (1 # 9007199254740992)) * inject_Z c
                 == inject_Z n + inject_Z n * (1 # 9007199254740992))
      by (rewrite <- HqC; ring).
    rewrite E1 in H1. rewrite E2 in H2.
    assert (Hfl : Qfloor (mag m e) = k).
    { apply Qfloor_between.
      - apply (Qmult_le_r _ _ (inject_Z c)); [lra|]. lra.
      - apply (Qmult_lt_r _ _ (inject_Z c)); [lra|].
        rewrite inject_Z_plus. change (inject_Z 1) with 1. lra. }
    unfold Math_floor. cbn [to_Q]. rewrite Hfl.
    destruct (Z.ltb_spec k 0); [lia|]. apply signed_of_Z. lia.
Qed.

(** The remainder of two integers below [2^53] is their integer
    remainder. *)
Lemma rem_integers (n c : Z) :
  (0 <= n < 2 ^ 53)%Z -> (1 <= c < 2 ^ 53)%Z ->
  rem (of_Z n) (of_Z c) = of_Z (n mod c).
Proof.
  intros Hn Hc. destruct (of_Z_exact c Hc) as (mc & ec & Hofc & Hmagc).
  destruct (Z.eq_dec n 0) as [->|Hnz].
  { rewrite Hofc, Z.mod_0_l by lia. reflexivity. }
  destruct (of_Z_exact n) as (mn & en & Hofn & Hmagn); [lia|].
  rewrite Hofn, Hofc. cbn [rem].
  pose proof (Z.mod_pos_bound n c ltac:(lia)) as Hr.
  assert (Hq : mag mn en / mag mc ec == inject_Z n / inject_Z c)
    by now rewrite Hmagn, Hmagc.
  rewrite (Qfloor_comp _ _ Hq), <- Zdiv_Qdiv.
  rewrite <- (signed_of_Z (n mod c)) by lia.
  apply signed_proper. rewrite Hmagn, Hmagc.
  rewrite <- inject_Z_mult. unfold Qminus.
  rewrite <- inject_Z_opp, <- inject_Z_plus.
  rewrite Z.mod_eq by lia. reflexivity.
Qed.

Lemma ToBoolean_of_Z (k : Z) :
  (0 <= k < 2 ^ 53)%Z -> ToBoolean (of_Z k) = (0 <? k)%Z.
Proof.
  intros Hk. destruct (Z.eq_dec k 0) as [->|Hnz]; [reflexivity|].
  destruct (of_Z_exact k) as (m & e & Hof & _); [lia|]. rewrite Hof.
  destruct (Z.ltb_spec 0 k); [reflexivity | lia].
Qed.

Lemma ge_of_Z_one (k : Z) :
  (0 <= k < 2 ^ 53)%Z -> ge (of_Z k) (of_Z 1) = (0 <? k)%Z.
Proof.
  intros Hk. destruct (Z.eq_dec k 0) as [->|Hnz]; [reflexivity|].
  destruct (of_Z_exact k) as (m & e & Hof & Hmag); [lia|]. rewrite Hof.
  destruct (Z.ltb_spec 0 k); [|lia].
  change (of_Z 1) with (Finite false 4503599627370496 (-52)).
  unfold ge. cbn [cmp to_Q].
  assert (H1 : mag 4503599627370496 (-52) == 1) by reflexivity.
  rewrite (Qcompare_comp _ _ Hmag _ _ H1).
  assert (Hle : 1 <= inject_Z k).
  { change 1 with (inject_Z 1). rewrite <- Zle_Qle. lia. }
  destruct (Qcompare_spec (inject_Z k) 1) as [H'|H'|H']; try reflexivity. lra.
Qed.

Local Open Scope Z_scope.

Lemma Number_toString_of_Z (k : Z) :
  0 <= k < 10 ^ 15 -> Number_toString (of_Z k) = digits k.
Proof.
  intros Hk. destruct (Z.eq_dec k 0) as [->|Hnz]; [reflexivity|].
  change (10 ^ 15) with 1000000000000000 in Hk.
  destruct (trailing_zeros k) as (s & z & Hs & Hrange & Hmod); [lia|].
  destruct (Number_toString_round_integer s z) as (m & e & Hr & Hstr).
  - change (10 ^ 15) with 1000000000000000. lia.
  - exact Hmod.
  - rewrite <- Hs. change (10 ^ 21) with 1000000000000000000000. lia.
  - unfold of_Z. rewrite of_Q_pos.
    + rewrite Hs at 1. rewrite Hr, Hstr. now rewrite <- Hs.
    + change 0%Q with (inject_Z 0). rewrite <- Zlt_Qlt. lia.
Qed.

(** X9.  For a whole number [n] of minutes below [2^53] the formatter
    agrees with integer arithmetic: the weeks, days, hours and minutes
    are the integer quotients and remainders of [n], the text names the
    largest unit that is not zero and the next smaller one when that is
    not zero either, and seconds are never shown: zero minutes give the
    empty text. *)
Theorem parseWaitTime_whole_minutes
    (n : Z) (strHour strMin strSec : string) :
  0 <= n < 2 ^ 53 ->
  parseWaitTime (of_Z n) strHour strMin strSec =
    whole_minutes_text n strHour strMin.
Proof.
  intros Hn. change (2 ^ 53) with 9007199254740992 in Hn.
  pose proof (Z.div_mod n 10080 ltac:(lia)) as E1.
  pose proof (Z.mod_pos_bound n 10080 ltac:(lia)) as B1.
  pose proof (Z.div_mod (n mod 10080) 1440 ltac:(lia)) as E2.
  pose proof (Z.mod_pos_bound (n mod 10080) 1440 ltac:(lia)) as B2.
  pose proof (Z.div_mod (n mod 1440) 60 ltac:(lia)) as E3.
  pose proof (Z.mod_pos_bound (n mod 1440) 60 ltac:(lia)) as B3.
  pose proof (Z.mod_pos_bound n 1440 ltac:(lia)) as B4.
  pose proof (Z.mod_pos_bound n 60 ltac:(lia)) as B5.
  pose proof (Z.mod_le n 10080 ltac:(lia) ltac:(lia)) as M1.
  pose proof (Z.mod_le n 1440 ltac:(lia) ltac:(lia)) as M4.
  pose proof (Z.mod_le n 60 ltac:(lia) ltac:(lia)) as M5.
  assert (R1 : forall c, 1 <= c <= 10080 -> 1 <= c < 2 ^ 53)
    by (intros c Hc; change (2 ^ 53) with 9007199254740992; lia).
  assert (R2 : forall k, 0 <= k <= n -> 0 <= k < 2 ^ 53)
    by (intros k Hk; change (2 ^ 53) with 9007199254740992; lia).
  assert (R3 : forall k, 0 <= k < 1000000000000000 -> 0 <= k < 10 ^ 15)
    by (intros k Hk; change (10 ^ 15) with 1000000000000000; lia).
  assert (Hweeks : Math_floor (div (of_Z n) (of_Z 10080)) = of_Z (n / 10080))
    by (apply Math_floor_div_integers; [apply R2 | apply R1]; lia).
  assert (Hdays :
    Math_floor (div (rem (of_Z n) (of_Z 10080)) (of_Z 1440))
    = of_Z (n mod 10080 / 1440)).
  { rewrite rem_integers by ((apply R2 || apply R1); lia).
    apply Math_floor_div_integers; [apply R2 | apply R1]; lia. }
  assert (Hhours :
    Math_floor (div (rem (of_Z n) (of_Z 1440)) (of_Z 60))
    = of_Z (n mod 1440 / 60)).
  { rewrite rem_integers by ((apply R2 || apply R1); lia).
    apply Math_floor_div_integers; [apply R2 | apply R1]; lia. }
  assert (Bw : 0 <= n / 10080 <= n) by lia.
  assert (Bd : 0 <= n mod 10080 / 1440 <= n) by lia.
  assert (Bh : 0 <= n mod 1440 / 60 <= n) by lia.
  unfold whole_minutes_text.
  destruct (Z.ltb_spec 0 (n / 10080)) as [Hw|Hw].
  - (* weeks *)
    rewrite parseWaitTime_weeks
      by (rewrite Hweeks, ToBoolean_of_Z by (apply R2; lia);
          now apply Z.ltb_lt).
    rewrite Hweeks, Hdays, ToBoolean_of_Z by (apply R2; lia).
    rewrite !Number_toString_of_Z by (apply R3; lia).
    reflexivity.
  - assert (Hsmall : n mod 10080 = n) by (apply Z.mod_small; lia).
    assert (Hw0 : ToBoolean (Math_floor (div (of_Z n) (of_Z 10080))) = false).
    { rewrite Hweeks, ToBoolean_of_Z by (apply R2; lia). now apply Z.ltb_ge. }
    destruct (Z.ltb_spec 0 (n mod 10080 / 1440)) as [Hd|Hd].
    + (* days *)
      rewrite parseWaitTime_days;
        [| exact Hw0
         | rewrite Hdays, ToBoolean_of_Z by (apply R2; lia);
           now apply Z.ltb_lt ].
      rewrite Hdays.
      assert (Hh' :
        Math_floor (div (rem (rem (of_Z n) (of_Z 10080)) (of_Z 1440))
                      (of_Z 60)) = of_Z (n mod 1440 / 60)).
      { rewrite (rem_integers n 10080) by ((apply R2 || apply R1); lia).
        rewrite Hsmall. exact Hhours. }
      rewrite Hh', ToBoolean_of_Z by (apply R2; lia).
      rewrite !Number_toString_of_Z by (apply R3; lia).
      reflexivity.
    + assert (Hsmall' : n mod 1440 = n) by (apply Z.mod_small; lia).
      assert (Hd0 :
        ToBoolean (Math_floor (div (rem (of_Z n) (of_Z 10080)) (of_Z 1440)))
        = false).
      { rewrite Hdays, ToBoolean_of_Z by (apply R2; lia). now apply Z.ltb_ge. }
      destruct (Z.ltb_spec 0 (n mod 1440 / 60)) as [Hh|Hh].
      * (* hours *)
        rewrite parseWaitTime_hours;
          [| exact Hw0 | exact Hd0
           | rewrite Hhours, ToBoolean_of_Z by (apply R2; lia);
             now apply Z.ltb_lt ].
        rewrite Hhours.
        assert (Hm' :
          Math_floor (rem (rem (of_Z n) (of_Z 1440)) (of_Z 60))
          = of_Z (n mod 60)).
        { rewrite (rem_integers n 1440) by ((apply R2 || apply R1); lia).
          rewrite Hsmall'.
          rewrite rem_integers by ((apply R2 || apply R1); lia).
          apply Math_floor_of_Z, R2; lia. }
        rewrite Hm', ge_of_Z_one by (apply R2; lia).
        rewrite !Number_toString_of_Z by (apply R3; lia).
        reflexivity.
      * (* minutes or nothing *)
        rewrite parseWaitTime_no_hours;
          [| exact Hw0 | exact Hd0
           | rewrite Hhours, ToBoolean_of_Z by (apply R2; lia);
             now apply Z.ltb_ge ].
        rewrite (rem_integers n 60) by ((apply R2 || apply R1); lia).
        rewrite Math_floor_of_Z, ge_of_Z_one by (apply R2; lia).
        destruct (Z.ltb_spec 0 (n mod 60)) as [Hm|Hm].
        -- now rewrite Number_toString_of_Z by (apply R3; lia).
        -- rewrite (rem_integers n 1) by ((apply R2 || apply R1); lia).
           rewrite Z.mod_1_r. reflexivity.
Qed.

Lemma parseWaitTime_whole_minutes_witness :
  0 <= 1500 < 2 ^ 53 /\
  parseWaitTime (of_Z 1500) "h" "m" "s" = "1day 1h".
Proof.
  split; [lia|].
  now rewrite parseWaitTime_whole_minutes by lia.
Defined.

(** ** Wait times under a minute *)

Local Open Scope Q_scope.

(** A hundred times a value below one is below a hundred and a half
    after rounding. *)
Lemma mul_100_under_one (m : positive) (e : Z) :
  mag m e < 1 ->
  mul (Finite false m e) (of_Z 100) = Zero false \/
  exists m' e',
    mul (Finite false m e) (of_Z 100) = Finite false m' e' /\
    mag m' e' < 100 + (1 # 2).
Proof.
  intros Hlt. pose proof (mag_pos m e) as Hpos.
  destruct (of_Z_exact 100) as (mc & ec & Hof & Hmag);
    [split; [lia | reflexivity]|].
  rewrite Hof. cbn [mul xorb]. change (inject_Z 100) with 100 in Hmag.
  set (q := mag m e * mag mc ec).
  assert (Hq : 0 < q) by (unfold q; rewrite Hmag; lra).
  assert (Hq100 : q < 100) by (unfold q; rewrite Hmag; lra).
  assert (Hone : 2 ^ (-1022) <= 1) by (apply (pow2_mono (-1022) 0); lia).
  destruct (Qlt_le_dec q (2 ^ (-1022))) as [Hsmall|Hnormal].
  - pose proof (round_mag_below false q (-1022) Hq Hsmall ltac:(lia)) as Hb.
    destruct (round_mag false q) as [|s|s|s m' e']; try contradiction.
    + left. now subst s.
    + right. destruct Hb as [-> Hle]. exists m', e'.
      split; [reflexivity | lra].
  - destruct (round_mag_finite false q Hnormal) as (m' & e' & Hr).
    { eapply Qlt_le_trans; [exact Hq100|].
      apply Qle_bool_iff. vm_compute. reflexivity. }
    right. exists m', e'. split; [exact Hr|].
    destruct (round_mag_error false q false m' e' Hnormal Hr) as [_ He].
    change (2 ^ (-53)) with (1 # 9007199254740992) in He. lra.
Qed.

Local Open Scope Z_scope.

(** From the rounded hundredths [k] on, the arithmetic is that of
    integers: the seconds [k * 3 / 5] exceed one from [k = 2] on, and
    their ceiling is the integer quotient of [3 * k + 4] by 5. *)
Lemma seconds_of_hundredths (k : Z) (strSec : string) :
  0 <= k <= 100 ->
  let seconds := div (mul (of_Z k) (of_Z 3)) (of_Z 5) in
  (if gt seconds (of_Z 1)
   then Number_toString (Math_ceil seconds) ++ strSec else "")
  = if 5 <? 3 * k then digits ((3 * k + 4) / 5) ++ strSec else "".
Proof.
  intros Hk seconds.
  assert (Htable :
    forallb
      (fun n : nat =>
         let k := Z.of_nat n in
         let seconds := div (mul (of_Z k) (of_Z 3)) (of_Z 5) in
         Bool.eqb (gt seconds (of_Z 1)) (5 <? 3 * k)
         && String.eqb (Number_toString (Math_ceil seconds))
              (digits ((3 * k + 4) / 5)))
      (seq 0 101) = true) by (vm_compute; reflexivity).
  rewrite forallb_forall in Htable.
  specialize (Htable (Z.to_nat k) ltac:(apply in_seq; lia)).
  cbv zeta in Htable. rewrite Z2Nat.id in Htable by lia.
  apply andb_true_iff in Htable as [Hgt Hstr].
  apply Bool.eqb_prop in Hgt. apply String.eqb_eq in Hstr.
  subst seconds. now rewrite Hgt, Hstr.
Qed.

(** C5.  For every [min] with [0 <= min < 1] the seconds are
    [round (min * 100) * 3 / 5], where the rounding is to the nearest
    integer [k], halves upwards: [k = floor (min * 100 + 1/2)] for the
    binary64 product [min * 100], and [k] is at most 100.  The result
    is the ceiling of the seconds, the integer quotient of [3 * k + 4]
    by 5, followed by [strSec] when the seconds exceed one, that is
    when [3 * k > 5], and the empty string otherwise.
    [parseWaitTime(0, "h", "m", "s")] is "" and
    [parseWaitTime(0.5, "h", "m", "s")] is "30s". *)
Theorem parseWaitTime_under_a_minute :
  (forall (min : number) (strHour strMin strSec : string),
     let k := Qfloor (to_Q (mul min (of_Z 100)) + (1 # 2))%Q in
     is_binary64 min = true ->
     le (of_Z 0) min = true ->
     lt min (of_Z 1) = true ->
     0 <= k <= 100 /\
     parseWaitTime min strHour strMin strSec =
       if 5 <? 3 * k then digits ((3 * k + 4) / 5) ++ strSec else "")
  /\ parseWaitTime (of_Z 0) "h" "m" "s" = ""
  /\ parseWaitTime (div (of_Z 1) (of_Z 2)) "h" "m" "s" = "30s".
Proof.
  split; [|split; vm_compute; reflexivity].
  intros min strHour strMin strSec k Hbin Hle Hlt.
  destruct (under_a_minute_cases min Hle Hlt) as [[s ->]|(m & e & -> & Hm)].
  - destruct s; (split; [vm_compute; split; discriminate|]);
      vm_compute; reflexivity.
  - rewrite (parseWaitTime_Finite_under_a_minute m e strHour strMin strSec
               Hbin Hm).
    cbv zeta.
    assert (Hround :
      0 <= k <= 100 /\
      Math_round (mul (Finite false m e) (of_Z 100)) = of_Z k).
    { subst k.
      destruct (mul_100_under_one m e Hm) as [->|(m' & e' & -> & Hb)].
      - split; [vm_compute; split; discriminate | reflexivity].
      - pose proof (mag_pos m' e') as Hpos.
        unfold Math_round. cbn [to_Q].
        set (k := Qfloor (mag m' e' + (1 # 2))).
        pose proof (Qfloor_le (mag m' e' + (1 # 2))) as Hlo.
        pose proof (Qlt_floor (mag m' e' + (1 # 2))) as Hhi.
        fold k in Hlo, Hhi.
        assert (Ha : (inject_Z k < inject_Z 101)%Q).
        { change (inject_Z 101) with 101%Q. lra. }
        assert (Hc : (inject_Z 0 < inject_Z (k + 1))%Q).
        { change (inject_Z 0) with 0%Q. lra. }
        rewrite <- Zlt_Qlt in Ha, Hc.
        split; [lia|].
        destruct (Z.ltb_spec k 0); [lia|]. apply signed_of_Z. lia. }
    destruct Hround as [Hk ->]. split; [exact Hk|].
    apply seconds_of_hundredths. exact Hk.
Qed.

Lemma parseWaitTime_under_a_minute_witness :
  is_binary64 (div (of_Z 133) (of_Z 500)) = true /\
  le (of_Z 0) (div (of_Z 133) (of_Z 500)) = true /\
  lt (div (of_Z 133) (of_Z 500)) (of_Z 1) = true /\
  Number_toString (mul (div (of_Z 133) (of_Z 500)) (of_Z 100)) = "26.6" /\
  parseWaitTime (div (of_Z 133) (of_Z 500)) "h" "m" "s" = "17s".
Proof.
  split; [reflexivity|]. split; [reflexivity|]. split; [reflexivity|].
  split; [vm_compute; reflexivity|].
  destruct (proj1 parseWaitTime_under_a_minute
              (div (of_Z 133) (of_Z 500)) "h" "m" "s"
              eq_refl eq_refl eq_refl) as [_ H].
  rewrite H. vm_compute. reflexivity.
Defined.
